(** * myrpc: the server core (server package) and common.CheckSname

  A shallow embedding of the Go sources
    - server/server.go  (Server, register, ServeConn, ServeRequest,
      readRequest, call, sendResponse, getContext, putContext, close)
    - common/utils.go   (CheckSname)
  Stateful code is written in state-passing style over a [World]; every
  call into a collaborator that lives outside these two files (codec,
  plugin containers, log sink, listener) is recorded as an [event] so that
  what the server did to its environment can be inspected afterwards. *)

From stdpp Require Import base option list gmap strings sorting.
From Stdlib Require Import ZArith NArith Ascii String Lia.

Local Open Scope string_scope.
Local Open Scope list_scope.

(** ** Go values that cross the model *)

(** A Go [error]: [io.EOF] is a distinguished value compared by identity
  ([err != io.EOF]); every other error is known by its message. *)
Inductive error :=
| EOF
| Err (msg : string).

Definition Error (e : error) : string :=
  match e with
  | EOF => "EOF"
  | Err msg => msg
  end.

#[global] Instance error_eq_dec : EqDecision error.
Proof. solve_decision. Defined.

(** Opaque user data (an argument or a reply), known by its encoding. *)
Definition payload := string.

(** A Go [interface{}] handed to the codec as a body.  [invalidRequest] is
  the package-level placeholder [struct{}{}]; [boxed ptr x] is a user value
  with content [x], held through a pointer when [ptr] is set. *)
Inductive iface :=
| invalidRequest
| boxed (ptr : bool) (content : payload).

#[global] Instance iface_eq_dec : EqDecision iface.
Proof. solve_decision. Defined.

(** [reflect.Value]: the zero Value, or a Value wrapping an interface. *)
Inductive Value :=
| ZeroValue
| ValueOf (x : iface).

(** [reflect.Type] as far as the server looks at it: [Kind() == reflect.Ptr]
  and [Elem()]. *)
Inductive rtype :=
| Named (name : string)
| Ptr (elem : rtype).

(** ** package common *)
Module common.

(** [nameRegexp = ^[a-zA-Z0-9_\.\-]*$] read byte by byte: a byte outside
    ASCII never belongs to the class, so matching runes and matching bytes
    agree. *)
Definition nameChar (c : ascii) : bool :=
  let n := N_of_ascii c in
  ((97 <=? n) && (n <=? 122)        (* a-z *)
   || (65 <=? n) && (n <=? 90)      (* A-Z *)
   || (48 <=? n) && (n <=? 57)      (* 0-9 *)
   || (n =? 95)                     (* _ *)
   || (n =? 46)                     (* . *)
   || (n =? 45))%N.                 (* - *)

Fixpoint MatchString (s : string) : bool :=
  match s with
  | EmptyString => true
  | String c s' => nameChar c && MatchString s'
  end.

(** [ErrInvalidPath.Format(sname)]; the message template is declared
    outside the two files, only "an error that names sname" is used. *)
Definition ErrInvalidPath (sname : string) : error :=
  Err ("invalid path: " +:+ sname).

Definition CheckSname (sname : string) : option error :=
  if negb (MatchString sname) then Some (ErrInvalidPath sname) else None.

(** Modelled from the spec: the declaration of [common.ErrorType] and of
    its constants is not part of the two files.  Section 7 of the
    specification names the tags [server_service] and
    [server_service_panic]; [ErrorTypeZero] is the zero value a fresh
    Context carries. *)
Inductive ErrorType :=
| ErrorTypeZero
| ErrorTypeServerService
| ErrorTypeServerServicePanic.

#[global] Instance ErrorType_eq_dec : EqDecision ErrorType.
Proof. solve_decision. Defined.

Definition ErrServiceAlreadyExists (spath : string) : error :=
  Err ("service already exists: " +:+ spath).

Definition NewError (msg : string) : error := Err msg.

(** *** SnakeString and CamelString *)

Definition isUpper (d : ascii) : bool :=
  let n := N_of_ascii d in ((65 <=? n) && (n <=? 90))%N.     (* d >= 'A' && d <= 'Z' *)

Definition isLower (d : ascii) : bool :=
  let n := N_of_ascii d in ((97 <=? n) && (n <=? 122))%N.    (* d >= 'a' && d <= 'z' *)

Definition underscore : ascii := ascii_of_N 95.

(** A string of bytes below 128.  On such a string [strings.ToLower] maps
  the bytes ['A'..'Z'] to ['a'..'z'] and leaves the others alone, which is
  what [ToLower] does; outside ASCII the library works on runes, so every
  statement about [SnakeString] below is made for ASCII input. *)
Fixpoint isASCII (s : string) : bool :=
  match s with
  | EmptyString => true
  | String d s' => (N_of_ascii d <? 128)%N && isASCII s'
  end.

Definition lowerByte (d : ascii) : ascii :=
  if isUpper d then ascii_of_N (N_of_ascii d + 32) else d.

Fixpoint ToLower (s : string) : string :=
  match s with
  | EmptyString => EmptyString
  | String d s' => String (lowerByte d) (ToLower s')
  end.

(** The loop of [SnakeString] from index [i] on, with the flag [j]; the
  bytes appended to [data] are produced in order. *)
Fixpoint snake_loop (i : nat) (j : bool) (s : string) : string :=
  match s with
  | EmptyString => EmptyString
  | String d s' =>
      let sep := (0 <? i)%nat && isUpper d && j in
      let j := if negb (Ascii.eqb d underscore) then true else j in
      if sep then String underscore (String d (snake_loop (S i) j s'))
      else String d (snake_loop (S i) j s')
  end.

Definition SnakeString (s : string) : string := ToLower (snake_loop 0 false s).

(** The loop of [CamelString] with the flags [j] and [k]; [s[i+1]] is the
  head of the rest, and [num > i] says that there is a rest. *)
Fixpoint camel_loop (j k : bool) (s : string) : string :=
  match s with
  | EmptyString => EmptyString
  | String d s' =>
      let k := if negb k && isUpper d then true else k in
      let '(d, j, k) :=
        if isLower d && (j || negb k)
        then (ascii_of_N (N_of_ascii d - 32), false, true)
        else (d, j, k) in
      let next_lower :=
        match s' with
        | String d1 _ => isLower d1
        | EmptyString => false
        end in
      if k && Ascii.eqb d underscore && next_lower
      then camel_loop true k s'
      else String d (camel_loop j k s')
  end.

Definition CamelString (s : string) : string := camel_loop false false s.

(** Every byte of [s] passes [P]. *)
Fixpoint all_chars (P : ascii -> bool) (s : string) : bool :=
  match s with
  | EmptyString => true
  | String d s' => P d && all_chars P s'
  end.

Definition isDigit (d : ascii) : bool :=
  let n := N_of_ascii d in ((48 <=? n) && (n <=? 57))%N.

Definition isAlnum (d : ascii) : bool := isUpper d || isLower d || isDigit d.

(** The shape of an exported Go identifier written in ASCII letters and
  digits: an upper-case letter, then letters and digits. *)
Definition exported (s : string) : bool :=
  match s with
  | EmptyString => false
  | String c r => isUpper c && all_chars isAlnum r
  end.

End common.

(** ** package net/rpc: the header pair *)
Module rpc.

Record Request := mkRequest {
  ReqServiceMethod : string;
  ReqSeq : N                       (* uint64 *)
}.

Record Response := mkResponse {
  RespServiceMethod : string;
  RespSeq : N;                     (* uint64 *)
  RespError : string
}.

Definition zeroRequest : Request := mkRequest "" 0.
Definition zeroResponse : Response := mkResponse "" 0 "".

End rpc.

(** ** package server *)
Module server.
Import common rpc.

(** What a registered method does when it is invoked. *)
Inductive callResult :=
| Returns (replyv : Value) (err : option error)
| Panics (p : string).

(** The receiver handed to Register, known by what reflection says about
    it: [reflect.ValueOf(rcvr).String()] and [common.ObjectName(rcvr)]. *)
Record receiver := mkReceiver {
  rcvr_String : string;
  ObjectName : string
}.

(** Identity of a codec connection ([ServerCodecConn] is an interface
    value; a Context only stores the reference). *)
Definition ConnRef := nat.

(** A plugin container ([IServerPluginContainer]) as the server file uses
    it: the [doRegister] hook chain, asked with a path, the receiver and
    the metadata list, and the [doPostConnAccept] chain. *)
Record Container := mkContainer {
  doRegister : string -> receiver -> list string -> option error;
  doPostConnAccept : ConnRef -> option error
}.

(** Modelled from the spec: [new(ServerPluginContainer)] holds no plugin,
    and a hook point iterates the plugin list, stopping at the first
    non-nil error (section 4.3); with no plugin every hook returns nil. *)
Definition emptyContainer : Container :=
  mkContainer (fun _ _ _ => None) (fun _ => None).

(** [IService]: the four methods of the interface the server calls. *)
Record IService := mkService {
  GetPath : string;
  GetArgType : rtype;
  Call : Value -> callResult;
  GetPluginContainer : option Container
}.

Definition SetPluginContainer (p : Container) (s : IService) : IService :=
  mkService (GetPath s) (GetArgType s) (Call s) (Some p).

(** [Context]: the fields the server file reads or writes.  The pointers
    [req], [resp] and [data] are allocated once by the pool constructor and
    never reassigned, so the pointed-to values are stored in place;
    [data = None] is [ctx.data.data == nil], [query = None] the nil
    [url.Values].  The back-pointer [server] is set once by the pool
    constructor; the server is threaded explicitly instead. *)
Record Context := mkContext {
  codecConn : option ConnRef;
  req : Request;
  resp : Response;
  service : option IService;
  argv : Value;
  replyv : Value;
  query : option (gmap string (list string));
  data : option (gmap string string);
  rpcErrorType : ErrorType
}.

Definition set_codecConn (c : option ConnRef) (ctx : Context) : Context :=
  mkContext c (req ctx) (resp ctx) (service ctx) (argv ctx) (replyv ctx)
            (query ctx) (data ctx) (rpcErrorType ctx).
Definition set_req (r : Request) (ctx : Context) : Context :=
  mkContext (codecConn ctx) r (resp ctx) (service ctx) (argv ctx) (replyv ctx)
            (query ctx) (data ctx) (rpcErrorType ctx).
Definition set_resp (r : Response) (ctx : Context) : Context :=
  mkContext (codecConn ctx) (req ctx) r (service ctx) (argv ctx) (replyv ctx)
            (query ctx) (data ctx) (rpcErrorType ctx).
Definition set_service (s : option IService) (ctx : Context) : Context :=
  mkContext (codecConn ctx) (req ctx) (resp ctx) s (argv ctx) (replyv ctx)
            (query ctx) (data ctx) (rpcErrorType ctx).
Definition set_argv (v : Value) (ctx : Context) : Context :=
  mkContext (codecConn ctx) (req ctx) (resp ctx) (service ctx) v (replyv ctx)
            (query ctx) (data ctx) (rpcErrorType ctx).
Definition set_replyv (v : Value) (ctx : Context) : Context :=
  mkContext (codecConn ctx) (req ctx) (resp ctx) (service ctx) (argv ctx) v
            (query ctx) (data ctx) (rpcErrorType ctx).
Definition set_query (q : option (gmap string (list string))) (ctx : Context) : Context :=
  mkContext (codecConn ctx) (req ctx) (resp ctx) (service ctx) (argv ctx) (replyv ctx)
            q (data ctx) (rpcErrorType ctx).
Definition set_data (d : option (gmap string string)) (ctx : Context) : Context :=
  mkContext (codecConn ctx) (req ctx) (resp ctx) (service ctx) (argv ctx) (replyv ctx)
            (query ctx) d (rpcErrorType ctx).
Definition set_rpcErrorType (t : ErrorType) (ctx : Context) : Context :=
  mkContext (codecConn ctx) (req ctx) (resp ctx) (service ctx) (argv ctx) (replyv ctx)
            (query ctx) (data ctx) t.

(** [server.contextPool.New]: [req], [resp] and [data] freshly allocated,
    everything else zero. *)
Definition contextPool_New : Context :=
  mkContext None zeroRequest zeroResponse None ZeroValue ZeroValue None None
            ErrorTypeZero.

(** *** The environment: log sink, codec, plugin hooks *)

Inductive level := Debug | Info | Notice | Critical.

(** Which container a register hook was run on. *)
Inductive scope := ServerWide | Scoped.

Definition Addr := string.

(** Every call the server makes into a collaborator, in program order. *)
Inductive event :=
| EvLog (lvl : level) (msg : string)
| EvSetServerCodec (c : ConnRef)
| EvReadRequestBody (sink : option iface)
| EvWriteResponse (hdr : Response) (body : iface)
| EvConnClose (c : ConnRef)
| EvDoRegister (sc : scope) (spath : string) (rcvr : receiver) (metadata : list string)
| EvListenerClose (a : Addr).

Definition isWrite (e : event) : bool :=
  match e with
  | EvWriteResponse _ _ => true
  | _ => false
  end.

Definition isConnClose (e : event) : bool :=
  match e with
  | EvConnClose _ => true
  | _ => false
  end.

Definition trace := list event.

(** A function that ran to its end, or one that panicked; the state
    reached at the moment of the panic is kept, since every mutation goes
    through pointers. *)
Inductive outcome (A : Type) :=
| Normal (a : A)
| Panicked (p : string) (a : A).
Arguments Normal {A} a.
Arguments Panicked {A} p a.

(** A codec connection: its identity, whether a codec is bound, and what
    the codec answers to each write. *)
Record Conn := mkConn {
  connRef : ConnRef;
  GetServerCodec : option nat;
  writeErr : Response -> iface -> option error
}.

(** [IServiceBuilder.NewServices]. *)
Record Builder := mkBuilder {
  NewServices : receiver -> list string -> list IService * option error
}.

Record Server := mkServer {
  PluginContainer : Container;
  ServerCodecFunc : nat;
  ServiceBuilder : Builder;
  serviceMap : gmap string IService;
  routers : list string;
  listener : option Addr;
  contextPool : list Context;
  baseMetadata : string;
  callGroup : Z;
  running : bool
}.

Definition set_serviceMap (m : gmap string IService) (s : Server) : Server :=
  mkServer (PluginContainer s) (ServerCodecFunc s) (ServiceBuilder s) m (routers s)
           (listener s) (contextPool s) (baseMetadata s) (callGroup s) (running s).
Definition set_routers (r : list string) (s : Server) : Server :=
  mkServer (PluginContainer s) (ServerCodecFunc s) (ServiceBuilder s) (serviceMap s) r
           (listener s) (contextPool s) (baseMetadata s) (callGroup s) (running s).
Definition set_listener (l : option Addr) (s : Server) : Server :=
  mkServer (PluginContainer s) (ServerCodecFunc s) (ServiceBuilder s) (serviceMap s)
           (routers s) l (contextPool s) (baseMetadata s) (callGroup s) (running s).
Definition set_contextPool (p : list Context) (s : Server) : Server :=
  mkServer (PluginContainer s) (ServerCodecFunc s) (ServiceBuilder s) (serviceMap s)
           (routers s) (listener s) p (baseMetadata s) (callGroup s) (running s).
Definition set_callGroup (n : Z) (s : Server) : Server :=
  mkServer (PluginContainer s) (ServerCodecFunc s) (ServiceBuilder s) (serviceMap s)
           (routers s) (listener s) (contextPool s) (baseMetadata s) n (running s).
Definition set_running (b : bool) (s : Server) : Server :=
  mkServer (PluginContainer s) (ServerCodecFunc s) (ServiceBuilder s) (serviceMap s)
           (routers s) (listener s) (contextPool s) (baseMetadata s) (callGroup s) b.

(** [SetBaseMetadata]. *)
Definition SetBaseMetadata (metadata : string) (s : Server) : Server :=
  mkServer (PluginContainer s) (ServerCodecFunc s) (ServiceBuilder s) (serviceMap s)
           (routers s) (listener s) (contextPool s) metadata (callGroup s) (running s).

(** [init], on a server whose collaborators are already filled in (the
  three nil-defaults concern fields that are not optional here): an empty
  router list and an empty service map. *)
Definition init (s : Server) : Server :=
  set_serviceMap ∅ (set_routers [] s).

(** [isRunning]: the flag read under the read lock. *)
Definition isRunning (s : Server) : bool := running s.

(** *** Context pool *)

(** [sync.Pool]: [Get] may hand back any Context that was put, or a new
  one from [contextPool_New]; the model fixes one such policy, the pool as
  a stack, where [Get] takes the Context put last and makes a new one
  only when the pool is empty. *)
Definition contextPool_Get (s : Server) : Context * Server :=
  match contextPool s with
  | [] => (contextPool_New, s)
  | c :: rest => (c, set_contextPool rest s)
  end.

Definition contextPool_Put (ctx : Context) (s : Server) : Server :=
  set_contextPool (ctx :: contextPool s) s.

Definition getContext (conn : ConnRef) (s : Server) : Context * Server :=
  let '(ctx, s) := contextPool_Get s in
  let ctx := set_codecConn (Some conn) ctx in
  let ctx := set_data (Some ∅) ctx in
  (ctx, s).

(** The field resets of [putContext], between Lock and Unlock. *)
Definition resetContext (ctx : Context) : Context :=
  let ctx := set_data None ctx in
  let ctx := set_codecConn None ctx in
  let ctx := set_req (mkRequest "" (ReqSeq (req ctx))) ctx in
  let ctx := set_req (mkRequest (ReqServiceMethod (req ctx)) 0) ctx in
  let ctx := set_resp (mkResponse (RespServiceMethod (resp ctx)) (RespSeq (resp ctx)) "") ctx in
  let ctx := set_resp (mkResponse (RespServiceMethod (resp ctx)) 0 (RespError (resp ctx))) ctx in
  let ctx := set_resp (mkResponse "" (RespSeq (resp ctx)) (RespError (resp ctx))) ctx in
  let ctx := set_service None ctx in
  let ctx := set_query (Some ∅) ctx in
  let ctx := set_argv ZeroValue ctx in
  let ctx := set_replyv ZeroValue ctx in
  ctx.

Definition putContext (ctx : Context) (s : Server) : Server :=
  contextPool_Put (resetContext ctx) s.

(** *** Reading a request *)

(** What the codec connection delivers for one request: the triple
    [ctx.readRequestHeader()] returns, the header and the resolved service
    it leaves in the Context, and the body that follows on the wire with
    the result of decoding it. *)
Record headerResult := mkHeaderResult {
  hr_keepReading : bool;
  hr_notSend : bool;
  hr_err : option error;
  hr_req : Request;
  hr_service : option IService;
  hr_body : payload;
  hr_bodyErr : option error
}.

(** Modelled from the spec: [Context.readRequestHeader] is declared outside
    the server file.  Its result triple is the one of section 4.2; [None]
    stands for a peer that closed the stream cleanly ([keep_reading=false],
    [error=EOF]). *)
Definition readRequestHeader (item : option headerResult) (ctx : Context)
  : (bool * bool * option error) * Context :=
  match item with
  | None => ((false, false, Some EOF), ctx)
  | Some h =>
      ((hr_keepReading h, hr_notSend h, hr_err h),
       set_service (hr_service h) (set_req (hr_req h) ctx))
  end.

(** Modelled from the spec: [Context.readRequestBody] is declared outside
    the server file; it performs the one body read of section 4.4 into the
    sink it is given and returns the decoding result. *)
Definition readRequestBody (item : option headerResult) (sink : iface) (tr : trace)
  : option error * trace :=
  (from_option hr_bodyErr (Some EOF) item, tr ++ [EvReadRequestBody (Some sink)]).

Definition Kind_is_Ptr (t : rtype) : bool :=
  match t with
  | Ptr _ => true
  | Named _ => false
  end.

(** The content a decode leaves behind the pointer it was given. *)
Definition decoded (item : option headerResult) : payload :=
  match item with
  | Some h => if hr_bodyErr h is None then hr_body h else ""
  | None => ""
  end.

Definition readRequest (item : option headerResult) (ctx : Context) (tr : trace)
  : outcome ((bool * bool * option error) * Context * trace) :=
  let '((keepReading, notSend, err), ctx) := readRequestHeader item ctx in
  match err with
  | Some _ =>
      if negb keepReading then Normal ((keepReading, notSend, err), ctx, tr)
      else
        (* discard body: ctx.codecConn.ReadRequestBody(nil) *)
        Normal ((keepReading, notSend, err), ctx, tr ++ [EvReadRequestBody None])
  | None =>
      match service ctx with
      | None => Panicked "invalid memory address or nil pointer dereference" ((keepReading, notSend, err), ctx, tr)
      | Some svc =>
          let argType := GetArgType svc in
          (* argv = reflect.New(...): a pointer to a fresh value in both
             branches; ctx.argv is that pointer or what it points to *)
          let argIsValue := negb (Kind_is_Ptr argType) in
          let '(err, tr) := readRequestBody item (boxed true "") tr in
          (* the decoder wrote through the pointer ctx.argv shares *)
          let ctx := set_argv (ValueOf (boxed (negb argIsValue) (decoded item))) ctx in
          Normal ((keepReading, notSend, err), ctx, tr)
      end
  end.

(** *** Writing a response *)

(** Modelled from the spec: [Context.writeResponse] is declared outside the
    server file; it is the "atomic write of the framed response" of section
    4.4, with the header the Context holds at that moment. *)
Definition writeResponse (cn : Conn) (ctx : Context) (body : iface) (tr : trace)
  : option error * trace :=
  (writeErr cn (resp ctx) body, tr ++ [EvWriteResponse (resp ctx) body]).

(** [reflect.Value.Interface]: panics on the zero Value. *)
Definition Interface (v : Value) : option iface :=
  match v with
  | ZeroValue => None
  | ValueOf x => Some x
  end.

(** [sendResponse]; the [sending] mutex makes the write atomic with respect
    to the other writers of the connection, which is how the trace records
    it. *)
Definition sendResponse (cn : Conn) (ctx : Context) (errmsg : string) (tr : trace)
  : outcome (Context * trace) :=
  let ctx := set_resp (mkResponse (ReqServiceMethod (req ctx)) (RespSeq (resp ctx))
                                  (RespError (resp ctx))) ctx in
  let chosen :=
    if negb (String.eqb errmsg "") then
      Some (set_resp (mkResponse (RespServiceMethod (resp ctx)) (RespSeq (resp ctx)) errmsg) ctx,
            invalidRequest)
    else
      match Interface (replyv ctx) with
      | Some reply => Some (ctx, reply)
      | None => None
      end in
  match chosen with
  | None => Panicked "reflect: call of reflect.Value.Interface on zero Value" (ctx, tr)
  | Some (ctx, reply) =>
      let ctx := set_resp (mkResponse (RespServiceMethod (resp ctx)) (ReqSeq (req ctx))
                                      (RespError (resp ctx))) ctx in
      let '(err, tr) := writeResponse cn ctx reply tr in
      let tr := match err with
                | Some e => tr ++ [EvLog Debug ("rpc: writing response: " +:+ Error e)]
                | None => tr
                end in
      Normal (ctx, tr)
  end.

(** *** Invoking the service *)

(** The body of [call] up to the first panic. *)
Definition call_body (cn : Conn) (ctx : Context) (tr : trace) : outcome (Context * trace) :=
  match service ctx with
  | None => Panicked "invalid memory address or nil pointer dereference" (ctx, tr)
  | Some svc =>
      match Call svc (argv ctx) with
      | Panics p => Panicked p (ctx, tr)
      | Returns rv err =>
          let ctx := set_replyv rv ctx in
          let errmsg := "" in
          let '(errmsg, ctx) :=
            match err with
            | Some e => (Error e, set_rpcErrorType ErrorTypeServerService ctx)
            | None => (errmsg, ctx)
            end in
          sendResponse cn ctx errmsg tr
      end
  end.

(** [call]: the body under its deferred [recover].  The critical log line
  is kept without its stack trace, and [ctx.Path()] is read off the
  request header. *)
Definition call (cn : Conn) (ctx : Context) (tr : trace) : outcome (Context * trace) :=
  match call_body cn ctx tr with
  | Normal r => Normal r
  | Panicked p (ctx, tr) =>
      let tr := tr ++ [EvLog Critical ("rpc: (" +:+ ReqServiceMethod (req ctx) +:+ "): " +:+ p)] in
      let ctx := set_rpcErrorType ErrorTypeServerServicePanic ctx in
      sendResponse cn ctx "Service Panic!" tr
  end.

(** *** Serving a connection *)

(** The server, one connection, the call tasks spawned and not yet run,
    and the trace. *)
Record World := mkWorld {
  w_server : Server;
  w_conn : Conn;
  w_pending : list Context;
  w_trace : trace
}.

(** The goroutine spawned for a decoded request:
    [call; putContext; callGroup.Done]. *)
Definition callTask (c : Context) (w : World) : outcome World :=
  match call (w_conn w) c (w_trace w) with
  | Normal (c, tr) =>
      let s := putContext c (w_server w) in
      let s := set_callGroup (callGroup s - 1) s in
      Normal (mkWorld s (w_conn w) (w_pending w) tr)
  | Panicked p (c, tr) => Panicked p (mkWorld (w_server w) (w_conn w) (w_pending w) tr)
  end.

(** The scheduler lets the [i]-th pending task run to its end. *)
Definition runTask (i : nat) (w : World) : outcome World :=
  match w_pending w !! i with
  | None => Normal w
  | Some c => callTask c (mkWorld (w_server w) (w_conn w) (delete i (w_pending w)) (w_trace w))
  end.

Inductive loopCtl := Continue | Break.

(** One pass through the body of the [for server.isRunning()] loop. *)
Definition ServeConn_iter (item : option headerResult) (w : World) : outcome (loopCtl * World) :=
  let '(ctx, s) := getContext (connRef (w_conn w)) (w_server w) in
  match readRequest item ctx (w_trace w) with
  | Panicked p (_, ctx, tr) => Panicked p (Break, mkWorld s (w_conn w) (w_pending w) tr)
  | Normal ((keepReading, notSend, err), ctx, tr) =>
      let s := set_callGroup (callGroup s + 1) s in
      match err with
      | None =>
          (* go func(c *Context) {...}(ctx); continue *)
          Normal (Continue, mkWorld s (w_conn w) (w_pending w ++ [ctx]) tr)
      | Some e =>
          let tr := if decide (e = EOF) then tr else tr ++ [EvLog Debug ("rpc: " +:+ Error e)] in
          if keepReading then
            let sent :=
              if negb notSend then sendResponse (w_conn w) ctx (Error e) tr
              else Normal (ctx, tr) in
            match sent with
            | Panicked p (ctx, tr) => Panicked p (Break, mkWorld s (w_conn w) (w_pending w) tr)
            | Normal (ctx, tr) =>
                let s := putContext ctx s in
                let s := set_callGroup (callGroup s - 1) s in
                Normal (Continue, mkWorld s (w_conn w) (w_pending w) tr)
            end
          else
            let s := putContext ctx s in
            let s := set_callGroup (callGroup s - 1) s in
            Normal (Break, mkWorld s (w_conn w) (w_pending w) tr)
      end
  end.

(** What happens on a connection, in the order it happens: the next
    request arrives at the reader, or a spawned call task gets to run. *)
Inductive sched :=
| Incoming (h : headerResult)
| TaskRuns (i : nat).

(** The reader loop of [ServeConn] under a schedule.  When the schedule is
    used up the peer has closed the stream. *)
Fixpoint ServeConn_loop (sch : list sched) (w : World) : outcome World :=
  match sch with
  | TaskRuns i :: rest =>
      match runTask i w with
      | Normal w => ServeConn_loop rest w
      | Panicked p w => Panicked p w
      end
  | Incoming h :: rest =>
      if isRunning (w_server w) then
        match ServeConn_iter (Some h) w with
        | Normal (Continue, w) => ServeConn_loop rest w
        | Normal (Break, w) => Normal w
        | Panicked p (_, w) => Panicked p w
        end
      else Normal w
  | [] =>
      if isRunning (w_server w) then
        match ServeConn_iter None w with
        | Normal (_, w) => Normal w
        | Panicked p (_, w) => Panicked p w
        end
      else Normal w
  end.

Definition bindCodec (s : Server) (w : World) : World :=
  match GetServerCodec (w_conn w) with
  | None =>
      mkWorld (w_server w)
              (mkConn (connRef (w_conn w)) (Some (ServerCodecFunc s)) (writeErr (w_conn w)))
              (w_pending w) (w_trace w ++ [EvSetServerCodec (connRef (w_conn w))])
  | Some _ => w
  end.

Definition ServeConn (sch : list sched) (w : World) : outcome World :=
  let w := bindCodec (w_server w) w in
  match ServeConn_loop sch w with
  | Normal w =>
      Normal (mkWorld (w_server w) (w_conn w) (w_pending w)
                      (w_trace w ++ [EvConnClose (connRef (w_conn w))]))
  | Panicked p w => Panicked p w
  end.

(** [ServeRequest]: one request, served synchronously; the codec is left
    open. *)
Definition ServeRequest (item : option headerResult) (w : World) : outcome (option error * World) :=
  if negb (isRunning (w_server w)) then
    Normal (Some (Err "rpc: server has stopped"), w)
  else
    let w := bindCodec (w_server w) w in
    let '(ctx, s) := getContext (connRef (w_conn w)) (w_server w) in
    match readRequest item ctx (w_trace w) with
    | Panicked p (_, ctx, tr) => Panicked p (None, mkWorld s (w_conn w) (w_pending w) tr)
    | Normal ((keepReading, notSend, err), ctx, tr) =>
        let s := set_callGroup (callGroup s + 1) s in
        match err with
        | None =>
            match call (w_conn w) ctx tr with
            | Panicked p (ctx, tr) => Panicked p (None, mkWorld s (w_conn w) (w_pending w) tr)
            | Normal (ctx, tr) =>
                let s := putContext ctx s in
                let s := set_callGroup (callGroup s - 1) s in
                Normal (None, mkWorld s (w_conn w) (w_pending w) tr)
            end
        | Some e =>
            let sent :=
              if keepReading && negb notSend then sendResponse (w_conn w) ctx (Error e) tr
              else Normal (ctx, tr) in
            match sent with
            | Panicked p (ctx, tr) => Panicked p (None, mkWorld s (w_conn w) (w_pending w) tr)
            | Normal (ctx, tr) =>
                let s := putContext ctx s in
                let s := set_callGroup (callGroup s - 1) s in
                Normal (err, mkWorld s (w_conn w) (w_pending w) tr)
            end
        end
    end.

(** *** Registration *)

(** [sort.Strings] orders by [<] on strings, which compares bytes. *)
Definition string_le (a b : string) : Prop := String.leb a b = true.

#[global] Instance string_le_dec a b : Decision (string_le a b) :=
  decide (String.leb a b = true).

Definition sort_Strings (l : list string) : list string := merge_sort string_le l.

(** How a registration ends: the server is ready, or [log.Fatal] ended the
    process with the errors it printed (the state at that moment is kept
    for inspection only). *)
Inductive regResult :=
| Registered (s : Server) (tr : trace)
| Fatal (errs : list error) (s : Server) (tr : trace).

(** The state the [for _, service := range services] loop carries. *)
Record regState := mkRegState {
  rs_server : Server;
  rs_metadata : list string;
  rs_errs : list error;
  rs_trace : trace
}.

Definition register_step (rcvr : receiver) (p : Container) (st : regState) (service : IService)
  : regState :=
  let s := rs_server st in
  let spath := GetPath service in
  let errs :=
    if serviceMap s !! spath is Some _
    then rs_errs st ++ [ErrServiceAlreadyExists spath] else rs_errs st in
  let metadata := rs_metadata st ++ [baseMetadata s] in
  let tr := rs_trace st ++ [EvDoRegister ServerWide spath rcvr metadata] in
  let errs :=
    match doRegister (PluginContainer s) spath rcvr metadata with
    | Some e => errs ++ [NewError (Error e)]
    | None => errs
    end in
  let tr := tr ++ [EvDoRegister Scoped spath rcvr metadata] in
  let errs :=
    match doRegister p spath rcvr metadata with
    | Some e => errs ++ [NewError (Error e)]
    | None => errs
    end in
  let service := SetPluginContainer p service in
  let s := set_routers (routers s ++ [spath]) s in
  let tr := tr ++ [EvLog Info ("rpc: route ->	" +:+ spath)] in
  let s := set_serviceMap (<[spath := service]> (serviceMap s)) s in
  mkRegState s metadata errs tr.

Fixpoint register_loop (rcvr : receiver) (p : Container) (services : list IService)
    (st : regState) : regState :=
  match services with
  | [] => st
  | service :: rest => register_loop rcvr p rest (register_step rcvr p st service)
  end.

Definition register (pathSegments : list string) (rcvr : receiver) (p : Container)
    (metadata : list string) (s : Server) (tr : trace) : regResult :=
  match NewServices (ServiceBuilder s) rcvr pathSegments with
  | (_, Some err) => Fatal [Err ("rpc: " +:+ Error err)] s tr
  | (services, None) =>
      if decide (List.length services = 0) then
        Fatal [Err ("rpc: can not register invalid service: '" +:+ rcvr_String rcvr +:+ "'")] s tr
      else
        let st := register_loop rcvr p services (mkRegState s metadata [] tr) in
        if decide (0 < List.length (rs_errs st)) then
          Fatal (rs_errs st) (rs_server st) (rs_trace st)
        else
          Registered (set_routers (sort_Strings (routers (rs_server st))) (rs_server st))
                     (rs_trace st)
  end.

(** [Server.NamedRegister] and [Server.Register]. *)
Definition NamedRegister (name : string) (rcvr : receiver) (metadata : list string)
    (s : Server) (tr : trace) : regResult :=
  match CheckSname name with
  | Some err => Fatal [Err ("rpc: " +:+ Error err)] s tr
  | None =>
      let p := emptyContainer in
      register [name] rcvr p metadata s tr
  end.

Definition Register (rcvr : receiver) (metadata : list string) (s : Server) (tr : trace)
  : regResult :=
  let name := ObjectName rcvr in
  NamedRegister name rcvr metadata s tr.

(** [ServiceGroup]; the [server] pointer is the server threaded through. *)
Record ServiceGroup := mkGroup {
  prefixes : list string;
  group_PluginContainer : option Container
}.

(** [ServiceGroup.NamedRegister] and [ServiceGroup.Register]: the scoped
    container is rebuilt from a copy of the group's plugin list, so it
    answers as the group's container does. *)
Definition Group_NamedRegister (group : ServiceGroup) (name : string) (rcvr : receiver)
    (metadata : list string) (s : Server) (tr : trace) : regResult :=
  match CheckSname name with
  | Some err => Fatal [Err ("rpc: " +:+ Error err)] s tr
  | None =>
      let p := match group_PluginContainer group with
               | Some c => c
               | None => emptyContainer
               end in
      register (prefixes group ++ [name]) rcvr p metadata s tr
  end.

Definition Group_Register (group : ServiceGroup) (rcvr : receiver) (metadata : list string)
    (s : Server) (tr : trace) : regResult :=
  let name := ObjectName rcvr in
  Group_NamedRegister group name rcvr metadata s tr.

(** [Routers]. *)
Definition Routers (s : Server) : list string := routers s.

(** The character class the specification gives for a registered path,
    [[A-Za-z0-9._\-/]*]: a name character or a slash. *)
Definition pathChar (c : ascii) : bool :=
  nameChar c || (N_of_ascii c =? 47)%N.

Fixpoint pathMatches (s : string) : bool :=
  match s with
  | EmptyString => true
  | String c s' => pathChar c && pathMatches s'
  end.

(** *** Listening and shutting down *)

(** What [lis.Accept()] returns, one entry per call. *)
Inductive acceptResult :=
| Accepted (c : ConnRef)
| AcceptFailed (e : error).

(** [strings.Contains]. *)
Fixpoint Contains (s substr : string) : bool :=
  String.prefix substr s ||
  match s with
  | EmptyString => false
  | String _ s' => Contains s' substr
  end.

(** The accept loop of [serveListener].  The result tells whether the loop
    returned ([true]) or is still blocked in [Accept] when the script ends,
    and lists the connections handed to [go server.ServeConn]. *)
Fixpoint accept_loop (s : Server) (script : list acceptResult) (served : list ConnRef)
    (tr : trace) : bool * list ConnRef * trace :=
  match script with
  | [] => (false, served, tr)
  | AcceptFailed e :: _ =>
      let tr :=
        if negb (Contains (Error e) "use of closed network connection")
        then tr ++ [EvLog Debug ("rpc: accept: " +:+ Error e)] else tr in
      (true, served, tr)
  | Accepted c :: rest =>
      match doPostConnAccept (PluginContainer s) c with
      | Some e => accept_loop s rest served (tr ++ [EvLog Debug ("rpc: PostConnAccept: " +:+ Error e)])
      | None => accept_loop s rest (served ++ [c]) tr
      end
  end.

Definition serveListener (lis : Addr) (script : list acceptResult) (s : Server) (tr : trace)
  : Server * (bool * list ConnRef * trace) :=
  let s := set_listener (Some lis) s in
  let s := set_running true s in
  let tr := tr ++ [EvLog Info ("rpc: listening and serving on " +:+ lis)] in
  (s, accept_loop s script [] tr).

(** *** Reading outcomes and traces *)

Definition no_write (evs : trace) : bool := forallb (fun e => negb (isWrite e)) evs.

Definition no_close (evs : trace) : bool := forallb (fun e => negb (isConnClose e)) evs.

Definition outcome_state {A} (o : outcome A) : A :=
  match o with
  | Normal a => a
  | Panicked _ a => a
  end.

Definition is_Normal {A} (o : outcome A) : bool :=
  match o with
  | Normal _ => true
  | Panicked _ _ => false
  end.

(** The registry invariant: [routers] lists every key of [serviceMap]
    once. *)
Definition registry_ok (s : Server) : Prop :=
  NoDup (routers s) ∧ ∀ path, path ∈ routers s ↔ is_Some (serviceMap s !! path).

(** *** Shutting down *)

(** The [context.Context] handed to [close]: how many of the calls in
  flight finish before [ctx.Done()] becomes ready ([None]: it never
  does), the error [ctx.Err()] reports from then on, and the choice
  [select] makes when both of its cases are ready. *)
Record shutdownCtx := mkShutdownCtx {
  doneAfter : option nat;
  ctxErr : error;
  pickDone : bool
}.

(** How [close] ends: it returns an error or nil, or it never returns (and
  keeps [server.mu]). *)
Inductive closeResult :=
| Returned (err : option error)
| Waiting.

(** The call tasks [runs] run to their end, one after the other. *)
Fixpoint runTasks (runs : list nat) (w : World) : World :=
  match runs with
  | [] => w
  | i :: rest => runTasks rest (outcome_state (runTask i w))
  end.

(** The [select] of [close], with the goroutine that waits on the
  wait-group beside it.  [server.mu] is held throughout, so no reader gets
  past [isRunning]; what goes on are the call tasks, which take no lock:
  [runs] lists them in the order they finish.  The channel [c] is closed
  as soon as the counter of [callGroup] is zero; [ctx.Done()] is ready
  once [d] tasks have finished.  When no task is left to finish, a
  deadline that is set fires, and without one [close] waits for ever. *)
Fixpoint close_select (d : option nat) (err : error) (pick : bool) (runs : list nat)
    (w : World) : closeResult * World :=
  let drained := (callGroup (w_server w) =? 0)%Z in
  let fired := match d with
               | Some 0 => true
               | _ => false
               end in
  if drained && fired then (Returned (if pick then Some err else None), w)
  else if drained then (Returned None, w)
  else if fired then (Returned (Some err), w)
  else
    match runs with
    | [] => (match d with
             | Some _ => Returned (Some err)
             | None => Waiting
             end, w)
    | i :: rest => close_select (Nat.pred <$> d) err pick rest (outcome_state (runTask i w))
    end.

(** [close]. *)
Definition close (x : shutdownCtx) (runs : list nat) (w : World) : closeResult * World :=
  match listener (w_server w) with
  | None => (Returned None, w)
  | Some lis =>
      let tr := w_trace w ++ [EvListenerClose lis] in
      if negb (running (w_server w)) then
        (Returned None, mkWorld (w_server w) (w_conn w) (w_pending w) tr)
      else
        let tr := tr ++ [EvLog Info ("rpc: stopped listening " +:+ lis)] in
        let s := set_running false (w_server w) in
        close_select (doneAfter x) (ctxErr x) (pickDone x) runs
                     (mkWorld s (w_conn w) (w_pending w) tr)
  end.

(** Two worlds in which the same calls are in flight on the same
  connection, and whose traces end in the same events [new]. *)
Definition same_calls (t1 t2 new : trace) (w1 w2 : World) : Prop :=
  w_conn w1 = w_conn w2 ∧ w_pending w1 = w_pending w2 ∧
  callGroup (w_server w1) = callGroup (w_server w2) ∧
  contextPool (w_server w1) = contextPool (w_server w2) ∧
  w_trace w1 = t1 ++ new ∧ w_trace w2 = t2 ++ new.

(** *** A small deployment used to run the model *)

(** [Arith.Mul], a method that panics, and one that fails. *)
Definition ex_mul : IService :=
  mkService "/arith/mul" (Ptr (Named "Args")) (fun _ => Returns (ValueOf (boxed true "56")) None) None.
Definition ex_boom : IService :=
  mkService "/arith/boom" (Named "Args") (fun _ => Panics "boom") None.
Definition ex_fail : IService :=
  mkService "/arith/fail" (Named "Args")
            (fun _ => Returns (ValueOf (boxed true "")) (Some (Err "division by zero"))) None.

Definition ex_rcvr : receiver := mkReceiver "<*main.Arith Value>" "Arith".

Definition ex_builder : Builder := mkBuilder (fun _ _ => ([ex_mul; ex_boom], None)).

Definition ex_server : Server :=
  mkServer emptyContainer 0 ex_builder ∅ [] (Some "127.0.0.1:8080") [] "v1" 0 true.

Definition ex_conn : Conn := mkConn 7 None (fun _ _ => None).

Definition ex_world : World := mkWorld ex_server ex_conn [] [].

Definition ex_req_boom : headerResult :=
  mkHeaderResult true false None (mkRequest "/arith/boom" 1) (Some ex_boom) "{7,8}" None.
Definition ex_req_mul : headerResult :=
  mkHeaderResult true false None (mkRequest "/arith/mul" 2) (Some ex_mul) "{7,8}" None.
Definition ex_req_unknown : headerResult :=
  mkHeaderResult true false (Some (Err "rpc: can't find service/method /nope"))
                 (mkRequest "/nope" 3) None "{7,8}" None.
Definition ex_req_vetoed : headerResult :=
  mkHeaderResult true true (Some (Err "rejected by plugin")) (mkRequest "/arith/mul" 4) None "{7,8}" None.

(** A Context in the middle of a call. *)
Definition ex_ctx : Context :=
  mkContext (Some 7) (mkRequest "/arith/mul" 2) zeroResponse (Some ex_mul)
            (ValueOf (boxed true "{7,8}")) (ValueOf (boxed true "56")) None (Some ∅)
            ErrorTypeZero.

(** A builder that escapes a method name outside ASCII, as a URL-style
    builder does ([Über] becomes [%C3%9Cber]). *)
Definition ex_uber : IService :=
  mkService "/arith/%C3%9Cber" (Named "Args") (fun _ => Returns (ValueOf (boxed true "")) None) None.
Definition ex_builder_uber : Builder := mkBuilder (fun _ _ => ([ex_uber], None)).
Definition ex_server_uber : Server :=
  mkServer emptyContainer 0 ex_builder_uber ∅ [] None [] "" 0 false.

(** What the register hooks of a list of services are handed, service by
    service, when the loop starts with metadata [md]. *)
Fixpoint hook_events (rcvr : receiver) (base : string) (md : list string)
    (services : list IService) : trace :=
  match services with
  | [] => []
  | svc :: rest =>
      [EvDoRegister ServerWide (GetPath svc) rcvr (md ++ [base]);
       EvDoRegister Scoped (GetPath svc) rcvr (md ++ [base]);
       EvLog Info ("rpc: route ->	" +:+ GetPath svc)]
      ++ hook_events rcvr base (md ++ [base]) rest
  end.

Definition reg_trace (r : regResult) : trace :=
  match r with
  | Registered _ tr => tr
  | Fatal _ _ tr => tr
  end.

(** The request headers a schedule delivers to the reader. *)
Fixpoint reqs_of (sch : list sched) : list Request :=
  match sch with
  | [] => []
  | Incoming h :: rest => hr_req h :: reqs_of rest
  | TaskRuns _ :: rest => reqs_of rest
  end.

(** Every response written in [evs] answers one of the requests [rs]: same
  [seq], same [service_method]. *)
Definition answers (rs : list Request) (evs : trace) : Prop :=
  ∀ hdr body, EvWriteResponse hdr body ∈ evs →
    ∃ r, r ∈ rs ∧ RespSeq hdr = ReqSeq r ∧ RespServiceMethod hdr = ReqServiceMethod r.

(** The connections the accept script offers. *)
Fixpoint accepted (script : list acceptResult) : list ConnRef :=
  match script with
  | [] => []
  | Accepted c :: rest => c :: accepted rest
  | AcceptFailed _ :: rest => accepted rest
  end.

(** The request header one loop pass is handed, if any. *)
Definition item_reqs (item : option headerResult) : list Request :=
  match item with
  | Some h => [hr_req h]
  | None => []
  end.

(** One call of [register], and a start-up sequence of such calls, each on
  the server the one before left; the first fatal one ends the process. *)
Record registration := mkRegistration {
  reg_segments : list string;
  reg_rcvr : receiver;
  reg_container : Container;
  reg_metadata : list string
}.

Fixpoint register_all (rs : list registration) (s : Server) (tr : trace) : regResult :=
  match rs with
  | [] => Registered s tr
  | r :: rest =>
      match register (reg_segments r) (reg_rcvr r) (reg_container r) (reg_metadata r) s tr with
      | Registered s tr => register_all rest s tr
      | Fatal errs s tr => Fatal errs s tr
      end
  end.

(** More sample services: one that returns without touching its reply, one
  whose error has an empty message, and a container that refuses every
  registration. *)
Definition ex_void : IService :=
  mkService "/arith/void" (Named "Args") (fun _ => Returns ZeroValue None) None.
Definition ex_quiet : IService :=
  mkService "/arith/quiet" (Named "Args")
            (fun _ => Returns (ValueOf (boxed true "0")) (Some (Err ""))) None.
Definition ex_refusing : Container :=
  mkContainer (fun _ _ _ => Some (Err "registration closed")) (fun _ => None).

(** The sample server with one decoded call in flight, and a framed header
  whose error has an empty message. *)
Definition ex_busy : World :=
  mkWorld (set_callGroup 1 ex_server) ex_conn [set_service (Some ex_mul) ex_ctx] [].
Definition ex_req_blank : headerResult :=
  mkHeaderResult true false (Some (Err "")) (mkRequest "/arith/mul" 5) None "{7,8}" None.

(** ** Properties *)

Lemma resetContext_fields ctx :
  resetContext ctx =
  mkContext None zeroRequest zeroResponse None ZeroValue ZeroValue (Some ∅) None
            (rpcErrorType ctx).
Proof. reflexivity. Qed.

Lemma putContext_pool ctx s :
  contextPool (putContext ctx s) = resetContext ctx :: contextPool s.
Proof. reflexivity. Qed.

Lemma getContext_after_put ctx s conn :
  fst (getContext conn (putContext ctx s)) =
  set_data (Some ∅) (set_codecConn (Some conn) (resetContext ctx)).
Proof. reflexivity. Qed.

(** C1 (the code departs from the claim).  [putContext] clears the header
    pair, the bag, the connection, the service and the argument and reply
    handles, but never touches [rpcErrorType]: the Context put back keeps
    the tag of the call that used it, and the next [getContext] hands that
    tag out.  Run on the sample connection: after one panicking request has
    been served, the Context fetched for the next request already carries
    the server-service-panic tag. *)
Theorem putContext_keeps_rpcErrorType :
  (∀ ctx s conn,
      rpcErrorType (fst (getContext conn (putContext ctx s))) = rpcErrorType ctx) ∧
  rpcErrorType
    (fst (getContext 7
            (w_server (outcome_state
                         (ServeConn_loop [Incoming ex_req_boom; TaskRuns 0] ex_world)))))
  = ErrorTypeServerServicePanic.
Proof.
  split.
  - intros ctx s conn. rewrite getContext_after_put. reflexivity.
  - vm_compute. reflexivity.
Qed.

(** *** sendResponse *)

Lemma sendResponse_error cn ctx errmsg tr :
  errmsg ≠ "" →
  sendResponse cn ctx errmsg tr =
  let hdr := mkResponse (ReqServiceMethod (req ctx)) (ReqSeq (req ctx)) errmsg in
  Normal (set_resp hdr ctx,
          tr ++ [EvWriteResponse hdr invalidRequest] ++
          match writeErr cn hdr invalidRequest with
          | Some e => [EvLog Debug ("rpc: writing response: " +:+ Error e)]
          | None => []
          end).
Proof.
  intros Hne. unfold sendResponse.
  destruct (String.eqb_spec errmsg "") as [->|_]; [done|]. cbn.
  destruct (writeErr cn _ _); cbn; [rewrite <- app_assoc|]; reflexivity.
Qed.

Lemma sendResponse_reply cn ctx reply tr :
  replyv ctx = ValueOf reply →
  sendResponse cn ctx "" tr =
  let hdr := mkResponse (ReqServiceMethod (req ctx)) (ReqSeq (req ctx)) (RespError (resp ctx)) in
  Normal (set_resp hdr ctx,
          tr ++ [EvWriteResponse hdr reply] ++
          match writeErr cn hdr reply with
          | Some e => [EvLog Debug ("rpc: writing response: " +:+ Error e)]
          | None => []
          end).
Proof.
  intros Hr. unfold sendResponse. cbn. rewrite Hr. cbn.
  destruct (writeErr cn _ _); cbn; [rewrite <- app_assoc|]; reflexivity.
Qed.

Lemma sendResponse_zero_reply cn ctx tr :
  replyv ctx = ZeroValue →
  ∃ p ctx', sendResponse cn ctx "" tr = Panicked p (ctx', tr).
Proof.
  intros Hr. unfold sendResponse. cbn. rewrite Hr. cbn. eauto.
Qed.

Lemma no_write_log_tail (o : option error) :
  no_write (match o with
            | Some e => [EvLog Debug ("rpc: writing response: " +:+ Error e)]
            | None => []
            end) = true.
Proof. destruct o; reflexivity. Qed.

(** The two ways [sendResponse] can end. *)
Lemma sendResponse_cases cn ctx errmsg tr :
  (∃ hdr body logs,
      sendResponse cn ctx errmsg tr
        = Normal (set_resp hdr ctx, tr ++ EvWriteResponse hdr body :: logs) ∧
      no_write logs = true ∧
      RespSeq hdr = ReqSeq (req ctx) ∧
      RespServiceMethod hdr = ReqServiceMethod (req ctx)) ∨
  (∃ p ctx',
      sendResponse cn ctx errmsg tr = Panicked p (ctx', tr) ∧ req ctx' = req ctx).
Proof.
  destruct (decide (errmsg = "")) as [->|Hne].
  - destruct (replyv ctx) as [|reply] eqn:Hr.
    + right. unfold sendResponse. cbn. rewrite Hr. cbn. eauto.
    + left. rewrite (sendResponse_reply cn ctx reply tr Hr). cbn.
      eexists _, _, _. split; [reflexivity|]. split; [apply no_write_log_tail|done].
  - left. rewrite (sendResponse_error cn ctx errmsg tr Hne). cbn.
    eexists _, _, _. split; [reflexivity|]. split; [apply no_write_log_tail|done].
Qed.

(** C2.  Whatever [sendResponse] is asked to send, if it writes a response
    then it writes exactly one, and that response's header carries the
    [seq] and [service_method] of the request header of the same Context;
    when it panics before the write (zero reply Value) nothing is
    written. *)
Theorem sendResponse_mirrors_request cn ctx errmsg tr :
  match sendResponse cn ctx errmsg tr with
  | Normal (ctx', tr') =>
      ∃ hdr body logs,
        tr' = tr ++ EvWriteResponse hdr body :: logs ∧ no_write logs = true ∧
        resp ctx' = hdr ∧ req ctx' = req ctx ∧
        RespSeq hdr = ReqSeq (req ctx) ∧
        RespServiceMethod hdr = ReqServiceMethod (req ctx)
  | Panicked _ (_, tr') => tr' = tr
  end.
Proof.
  destruct (decide (errmsg = "")) as [->|Hne].
  - destruct (replyv ctx) as [|reply] eqn:Hr.
    + destruct (sendResponse_zero_reply cn ctx tr Hr) as (p & ctx' & ->). reflexivity.
    + rewrite (sendResponse_reply cn ctx reply tr Hr). cbn.
      eexists _, _, _. split; [reflexivity|].
      split; [apply no_write_log_tail|]. done.
  - rewrite (sendResponse_error cn ctx errmsg tr Hne). cbn.
    eexists _, _, _. split; [reflexivity|].
    split; [apply no_write_log_tail|]. done.
Qed.

(** C6 (as amended).  With a non-empty error message the body written is
  [invalidRequest] and the header written carries the message.  With an
  empty message and a valid reply Value in the Context, the body written
  is that reply value and the header's error field is left as it was, so
  it stays empty.  With an empty message and the zero reply Value,
  [sendResponse] panics before the write and nothing is written. *)
Theorem sendResponse_body_and_error cn ctx errmsg tr :
  (errmsg ≠ "" →
   ∃ ctx' hdr logs,
     sendResponse cn ctx errmsg tr =
       Normal (ctx', tr ++ EvWriteResponse hdr invalidRequest :: logs) ∧
     no_write logs = true ∧ RespError hdr = errmsg ∧ resp ctx' = hdr) ∧
  (errmsg = "" → ∀ reply, replyv ctx = ValueOf reply →
   ∃ ctx' hdr logs,
     sendResponse cn ctx errmsg tr =
       Normal (ctx', tr ++ EvWriteResponse hdr reply :: logs) ∧
     no_write logs = true ∧ RespError hdr = RespError (resp ctx) ∧ resp ctx' = hdr ∧
     (RespError (resp ctx) = "" → RespError hdr = "")) ∧
  (errmsg = "" → replyv ctx = ZeroValue →
   ∃ p ctx', sendResponse cn ctx errmsg tr = Panicked p (ctx', tr)).
Proof.
  split; [|split].
  - intros Hne. rewrite (sendResponse_error cn ctx errmsg tr Hne). cbn.
    eexists _, _, _. split; [reflexivity|].
    split; [apply no_write_log_tail|]. done.
  - intros -> reply Hr. rewrite (sendResponse_reply cn ctx reply tr Hr). cbn.
    eexists _, _, _. split; [reflexivity|].
    split; [apply no_write_log_tail|]. done.
  - intros -> Hr. by apply sendResponse_zero_reply.
Qed.

Lemma sendResponse_body_and_error_witness :
  (∃ ctx' hdr logs,
     sendResponse ex_conn ex_ctx "division by zero" [] =
       Normal (ctx', [] ++ EvWriteResponse hdr invalidRequest :: logs) ∧
     no_write logs = true ∧ RespError hdr = "division by zero" ∧ resp ctx' = hdr) ∧
  (∃ ctx' hdr logs,
     sendResponse ex_conn ex_ctx "" [] =
       Normal (ctx', [] ++ EvWriteResponse hdr (boxed true "56") :: logs) ∧
     no_write logs = true ∧ RespError hdr = RespError (resp ex_ctx) ∧ resp ctx' = hdr ∧
     (RespError (resp ex_ctx) = "" → RespError hdr = "")) ∧
  (∃ p ctx', sendResponse ex_conn (set_replyv ZeroValue ex_ctx) "" [] = Panicked p (ctx', [])).
Proof.
  split; [|split].
  - apply (proj1 (sendResponse_body_and_error ex_conn ex_ctx "division by zero" [])).
    discriminate.
  - apply (proj1 (proj2 (sendResponse_body_and_error ex_conn ex_ctx "" [])) eq_refl
             (boxed true "56")).
    reflexivity.
  - apply (proj2 (proj2 (sendResponse_body_and_error ex_conn (set_replyv ZeroValue ex_ctx) "" []))
             eq_refl).
    reflexivity.
Defined.

(** C6 (as stated, refuted).  An empty error message does not make the
  reply the body: on a Context whose reply Value is the zero Value,
  [sendResponse] with the empty message panics when it takes the reply's
  interface, and the trace is left without any write. *)
Lemma sendResponse_zero_reply_writes_nothing :
  sendResponse ex_conn (set_replyv ZeroValue ex_ctx) "" []
  = Panicked "reflect: call of reflect.Value.Interface on zero Value"
             (set_resp (mkResponse "/arith/mul" 0 "") (set_replyv ZeroValue ex_ctx), []).
Proof. reflexivity. Qed.

(** *** readRequest *)

Lemma no_write_app (a b : trace) : no_write (a ++ b) = no_write a && no_write b.
Proof. apply forallb_app. Qed.

Lemma no_close_app (a b : trace) : no_close (a ++ b) = no_close a && no_close b.
Proof. apply forallb_app. Qed.

(** [readRequest] only reads: whatever it returns, it added no write to
    the trace. *)
Lemma readRequest_no_write item ctx tr :
  ∃ new, snd (outcome_state (readRequest item ctx tr)) = tr ++ new ∧ no_write new = true.
Proof.
  unfold readRequest.
  destruct (readRequestHeader item ctx) as [[[kr ns] err] ctx1].
  destruct err as [e|].
  - destruct kr; cbn.
    + exists [EvReadRequestBody None]. done.
    + exists []. by rewrite app_nil_r.
  - destruct (service ctx1) as [svc|]; cbn.
    + exists [EvReadRequestBody (Some (boxed true ""))]. done.
    + exists []. by rewrite app_nil_r.
Qed.

(** On success the body is decoded into the argument storage. *)
Lemma readRequest_decodes_body item ctx tr kr ns ctx1 svc :
  readRequestHeader item ctx = ((kr, ns, None), ctx1) →
  service ctx1 = Some svc →
  ∃ err ctx2,
    readRequest item ctx tr =
      Normal ((kr, ns, err), ctx2, tr ++ [EvReadRequestBody (Some (boxed true ""))]) ∧
    argv ctx2 = ValueOf (boxed (Kind_is_Ptr (GetArgType svc)) (decoded item)).
Proof.
  intros Hh Hs. unfold readRequest. rewrite Hh, Hs. cbn.
  eexists _, _. split; [reflexivity|]. cbn. by rewrite negb_involutive.
Qed.

(** C4.  When the header was read ([keep_reading = true]) and header
    processing or dispatch failed (a non-nil error), [readRequest] reads
    the body once, with the nil sink, before it returns, and hands the
    header's triple back unchanged. *)
Theorem readRequest_discards_body item ctx tr ns e ctx1 :
  readRequestHeader item ctx = ((true, ns, Some e), ctx1) →
  readRequest item ctx tr =
    Normal ((true, ns, Some e), ctx1, tr ++ [EvReadRequestBody None]).
Proof.
  intros Hh. unfold readRequest. rewrite Hh. reflexivity.
Qed.

Lemma readRequest_discards_body_witness :
  readRequest (Some ex_req_unknown) contextPool_New [] =
    Normal ((true, false, Some (Err "rpc: can't find service/method /nope")),
            set_service None (set_req (mkRequest "/nope" 3) contextPool_New),
            [] ++ [EvReadRequestBody None]).
Proof.
  apply (readRequest_discards_body (Some ex_req_unknown) contextPool_New [] false
           (Err "rpc: can't find service/method /nope")).
  reflexivity.
Defined.

(** *** ServeConn *)

Lemma getContext_server conn s :
  callGroup (snd (getContext conn s)) = callGroup s ∧
  running (snd (getContext conn s)) = running s.
Proof. unfold getContext, contextPool_Get. destruct (contextPool s); done. Qed.

(** C5.  When [readRequest] returns [keep_reading = true],
    [suppress_response = true] and an error, the loop body writes nothing:
    the only events it adds are reads and log lines, the Context goes back
    to the pool, the wait-group is back at its value, no call task is
    spawned, and the loop goes on to the next header. *)
Theorem ServeConn_suppressed_no_response item w e ctx1 tr1 :
  readRequest item (fst (getContext (connRef (w_conn w)) (w_server w))) (w_trace w)
    = Normal ((true, true, Some e), ctx1, tr1) →
  ∃ w' new,
    ServeConn_iter item w = Normal (Continue, w') ∧
    w_trace w' = w_trace w ++ new ∧ no_write new = true ∧
    contextPool (w_server w')
      = resetContext ctx1 :: contextPool (snd (getContext (connRef (w_conn w)) (w_server w))) ∧
    callGroup (w_server w') = callGroup (w_server w) ∧
    w_pending w' = w_pending w ∧ w_conn w' = w_conn w.
Proof.
  intros Hr. unfold ServeConn_iter.
  destruct (readRequest_no_write item
              (fst (getContext (connRef (w_conn w)) (w_server w))) (w_trace w))
    as (new & Htr & Hnw).
  destruct (getContext_server (connRef (w_conn w)) (w_server w)) as [Hcg _].
  destruct (getContext (connRef (w_conn w)) (w_server w)) as [ctx0 s0]. cbn in *.
  rewrite Hr in *. cbn in Htr. subst tr1. cbn.
  destruct (decide (e = EOF)) as [He|He].
  - eexists _, new. split; [reflexivity|]. cbn.
    split; [reflexivity|]. split; [done|]. split; [reflexivity|]. split; [lia|done].
  - eexists _, (new ++ [EvLog Debug ("rpc: " +:+ Error e)]). split; [reflexivity|]. cbn.
    split; [by rewrite app_assoc|]. split; [by rewrite no_write_app, Hnw|].
    split; [reflexivity|]. split; [lia|done].
Qed.

Lemma ServeConn_suppressed_no_response_witness :
  ∃ w' new,
    ServeConn_iter (Some ex_req_vetoed) ex_world = Normal (Continue, w') ∧
    w_trace w' = w_trace ex_world ++ new ∧ no_write new = true ∧
    contextPool (w_server w')
      = resetContext (set_service None (set_req (mkRequest "/arith/mul" 4)
                        (fst (getContext 7 ex_server))))
        :: contextPool (snd (getContext (connRef (w_conn ex_world)) (w_server ex_world))) ∧
    callGroup (w_server w') = callGroup (w_server ex_world) ∧
    w_pending w' = w_pending ex_world ∧ w_conn w' = w_conn ex_world.
Proof.
  apply (ServeConn_suppressed_no_response (Some ex_req_vetoed) ex_world
           (Err "rejected by plugin") _ [EvReadRequestBody None]).
  reflexivity.
Defined.

(** *** call *)


(** [call] never lets a panic out: the response sent from the deferred
    function has a non-empty message, so it cannot panic in turn. *)
Lemma call_returns cn c tr : is_Normal (call cn c tr) = true.
Proof.
  unfold call. destruct (call_body cn c tr) as [r|p [c' tr']]; [done|].
  rewrite sendResponse_error by done. reflexivity.
Qed.

(** Scenario 3 of the specification, run on the sample connection: a
    panicking call, then a successful one; both get their response and the
    connection is closed only when the peer is done. *)
Example panic_then_success :
  w_trace (outcome_state
             (ServeConn [Incoming ex_req_boom; TaskRuns 0; Incoming ex_req_mul; TaskRuns 0]
                        ex_world))
  = [EvSetServerCodec 7;
     EvReadRequestBody (Some (boxed true ""));
     EvLog Critical "rpc: (/arith/boom): boom";
     EvWriteResponse (mkResponse "/arith/boom" 1 "Service Panic!") invalidRequest;
     EvReadRequestBody (Some (boxed true ""));
     EvWriteResponse (mkResponse "/arith/mul" 2 "") (boxed true "56");
     EvConnClose 7].
Proof. vm_compute. reflexivity. Qed.

(** *** ServeRequest *)

(** C10.  On a server whose running flag is false, [ServeRequest] returns
    the error "rpc: server has stopped" at once: the world it leaves (server
    state, connection, pending tasks, trace) is the one it was given, so
    nothing was read and nothing changed. *)
Theorem ServeRequest_stopped item w :
  running (w_server w) = false →
  ServeRequest item w = Normal (Some (Err "rpc: server has stopped"), w).
Proof.
  intros Hr. unfold ServeRequest, isRunning. rewrite Hr. reflexivity.
Qed.

Lemma ServeRequest_stopped_witness :
  ServeRequest (Some ex_req_mul) (mkWorld (set_running false ex_server) ex_conn [] [])
  = Normal (Some (Err "rpc: server has stopped"),
            mkWorld (set_running false ex_server) ex_conn [] []).
Proof.
  apply (ServeRequest_stopped (Some ex_req_mul)
           (mkWorld (set_running false ex_server) ex_conn [] [])).
  reflexivity.
Defined.

(** *** register *)

#[global] Instance string_le_total : Total string_le.
Proof. intros a b. apply String.leb_total. Qed.

Lemma Ascii_compare_N a b :
  Ascii.compare a b = N.compare (N_of_ascii a) (N_of_ascii b).
Proof. reflexivity. Qed.

Lemma String_compare_le_trans a : ∀ b c,
  String.compare a b ≠ Gt → String.compare b c ≠ Gt → String.compare a c ≠ Gt.
Proof.
  induction a as [|x a IH]; intros [|y b] [|z c]; cbn; try done.
  rewrite !Ascii_compare_N.
  destruct (N.compare_spec (N_of_ascii x) (N_of_ascii y)) as [Hxy|Hxy|Hxy];
    destruct (N.compare_spec (N_of_ascii y) (N_of_ascii z)) as [Hyz|Hyz|Hyz];
    destruct (N.compare_spec (N_of_ascii x) (N_of_ascii z)) as [Hxz|Hxz|Hxz];
    try done; try lia.
  apply IH.
Qed.

#[global] Instance string_le_trans : Transitive string_le.
Proof.
  intros a b c. unfold string_le, String.leb. intros Hab Hbc.
  pose proof (String_compare_le_trans a b c) as H.
  destruct (String.compare a b), (String.compare b c), (String.compare a c);
    try done; exfalso; by apply H.
Qed.

Lemma register_step_server rcvr p st svc :
  routers (rs_server (register_step rcvr p st svc)) = routers (rs_server st) ++ [GetPath svc] ∧
  serviceMap (rs_server (register_step rcvr p st svc))
    = <[GetPath svc := SetPluginContainer p svc]> (serviceMap (rs_server st)) ∧
  baseMetadata (rs_server (register_step rcvr p st svc)) = baseMetadata (rs_server st) ∧
  rs_metadata (register_step rcvr p st svc) = rs_metadata st ++ [baseMetadata (rs_server st)].
Proof. done. Qed.

(** The error list only grows, and a path already in the map adds to
    it. *)
Lemma register_step_errs rcvr p st svc :
  rs_errs (register_step rcvr p st svc) = [] →
  rs_errs st = [] ∧ serviceMap (rs_server st) !! GetPath svc = None.
Proof.
  unfold register_step. cbn.
  destruct (serviceMap (rs_server st) !! GetPath svc) as [old|] eqn:Hm;
    destruct (doRegister (PluginContainer (rs_server st)) _ _ _);
    destruct (doRegister p _ _ _); cbn; intros H;
    repeat match goal with
           | H : _ ++ [_] = [] |- _ => by apply app_nil in H as [_ ?]
           end; done.
Qed.

Lemma register_step_present rcvr p st svc :
  is_Some (serviceMap (rs_server st) !! GetPath svc) →
  ErrServiceAlreadyExists (GetPath svc) ∈ rs_errs (register_step rcvr p st svc).
Proof.
  intros [old Hm]. unfold register_step. cbn. rewrite Hm.
  destruct (doRegister (PluginContainer (rs_server st)) _ _ _);
    destruct (doRegister p _ _ _); cbn; set_solver.
Qed.

Lemma register_step_errs_mono rcvr p st svc e :
  e ∈ rs_errs st → e ∈ rs_errs (register_step rcvr p st svc).
Proof.
  intros He. unfold register_step. cbn.
  destruct (serviceMap (rs_server st) !! GetPath svc);
    destruct (doRegister (PluginContainer (rs_server st)) _ _ _);
    destruct (doRegister p _ _ _); cbn; set_solver.
Qed.

Lemma register_loop_errs_mono rcvr p services : ∀ st e,
  e ∈ rs_errs st → e ∈ rs_errs (register_loop rcvr p services st).
Proof.
  induction services as [|svc rest IH]; intros st e He; cbn; [done|].
  apply IH. by apply register_step_errs_mono.
Qed.

Lemma register_loop_routers rcvr p services : ∀ st,
  routers (rs_server (register_loop rcvr p services st))
    = routers (rs_server st) ++ (GetPath <$> services).
Proof.
  induction services as [|svc rest IH]; intros st; cbn.
  - by rewrite app_nil_r.
  - rewrite IH. destruct (register_step_server rcvr p st svc) as (-> & _).
    by rewrite <- app_assoc.
Qed.

Lemma register_loop_map rcvr p services : ∀ st path,
  is_Some (serviceMap (rs_server (register_loop rcvr p services st)) !! path) ↔
  is_Some (serviceMap (rs_server st) !! path) ∨ path ∈ (GetPath <$> services).
Proof.
  induction services as [|svc rest IH]; intros st path; cbn.
  - split; [auto|]. intros [H|H]; [done|]. by apply elem_of_nil in H.
  - rewrite IH. destruct (register_step_server rcvr p st svc) as (_ & -> & _).
    rewrite lookup_insert_is_Some. rewrite elem_of_cons.
    destruct (decide (GetPath svc = path)) as [<-|Hne]; [tauto|].
    split.
    + intros [[Heq|[_ H]]|H]; [done|auto..].
    + intros [H|[Heq|H]]; [auto| |auto]. by subst path.
Qed.

(** A loop that ends with no error met only paths that were free, each
    once. *)
Lemma register_loop_clean rcvr p services : ∀ st,
  rs_errs (register_loop rcvr p services st) = [] →
  rs_errs st = [] ∧
  NoDup (GetPath <$> services) ∧
  ∀ svc, svc ∈ services → serviceMap (rs_server st) !! GetPath svc = None.
Proof.
  induction services as [|svc rest IH]; intros st Hclean; cbn in *.
  - split; [done|]. split; [constructor|]. intros svc Hin. by apply elem_of_nil in Hin.
  - destruct (IH _ Hclean) as (Herrs & Hnd & Hfree).
    destruct (register_step_errs _ _ _ _ Herrs) as [Herrs0 Hnew].
    destruct (register_step_server rcvr p st svc) as (_ & Hmap & _).
    split; [done|]. split.
    + constructor; [|done]. intros Hin.
      apply list_elem_of_fmap in Hin as (svc' & Heq & Hin').
      specialize (Hfree svc' Hin'). rewrite Hmap, <- Heq, lookup_insert_eq in Hfree. done.
    + intros svc' Hin. apply elem_of_cons in Hin as [->|Hin]; [done|].
      specialize (Hfree svc' Hin). rewrite Hmap in Hfree.
      apply lookup_insert_None in Hfree as [? _]. done.
Qed.

Lemma register_loop_present rcvr p services : ∀ st svc,
  svc ∈ services →
  is_Some (serviceMap (rs_server st) !! GetPath svc) →
  ErrServiceAlreadyExists (GetPath svc) ∈ rs_errs (register_loop rcvr p services st).
Proof.
  induction services as [|svc0 rest IH]; intros st svc Hin Hsome; cbn.
  - by apply elem_of_nil in Hin.
  - apply elem_of_cons in Hin as [->|Hin].
    + apply register_loop_errs_mono. by apply register_step_present.
    + apply IH; [done|].
      destruct (register_step_server rcvr p st svc0) as (_ & -> & _).
      rewrite lookup_insert_is_Some. destruct (decide (GetPath svc0 = GetPath svc)); auto.
Qed.

Lemma register_loop_metadata rcvr p services : ∀ st,
  baseMetadata (rs_server (register_loop rcvr p services st)) = baseMetadata (rs_server st) ∧
  rs_metadata (register_loop rcvr p services st)
    = rs_metadata st ++ replicate (List.length services) (baseMetadata (rs_server st)).
Proof.
  induction services as [|svc rest IH]; intros st; cbn.
  - by rewrite app_nil_r.
  - destruct (IH (register_step rcvr p st svc)) as [-> ->].
    destruct (register_step_server rcvr p st svc) as (_ & _ & -> & ->).
    by rewrite <- app_assoc.
Qed.

Lemma register_Registered segs rcvr p md s tr s' tr' :
  register segs rcvr p md s tr = Registered s' tr' →
  ∃ services,
    NewServices (ServiceBuilder s) rcvr segs = (services, None) ∧
    services ≠ [] ∧
    rs_errs (register_loop rcvr p services (mkRegState s md [] tr)) = [] ∧
    s' = set_routers
           (sort_Strings (routers (rs_server (register_loop rcvr p services (mkRegState s md [] tr)))))
           (rs_server (register_loop rcvr p services (mkRegState s md [] tr))).
Proof.
  unfold register. destruct (NewServices _ _ _) as [services [err|]]; [done|].
  destruct (decide (List.length services = 0)); [done|].
  destruct (decide (0 < List.length (rs_errs _))) as [|Hz]; [done|].
  intros [= <- <-]. exists services. split; [done|]. split.
  - by destruct services.
  - split; [|done]. destruct (rs_errs _); [done|]. cbn in Hz. lia.
Qed.

(** C7 (as amended).  Starting from a registry in which [routers] lists
    the keys of [serviceMap] once each, a registration that succeeds leaves
    such a registry again, with [routers] sorted and made of the old paths
    and the paths the builder returned; these match the character class of
    the specification as soon as the old paths and the builder's paths do
    (register itself checks no path).  A registration in which the builder
    returns a path already present in the registry is fatal. *)
Theorem register_keeps_registry segs rcvr p md s tr :
  registry_ok s →
  (∀ s' tr', register segs rcvr p md s tr = Registered s' tr' →
     registry_ok s' ∧
     StronglySorted string_le (routers s') ∧
     (∀ path, path ∈ routers s' ↔
              path ∈ routers s ∨
              path ∈ (GetPath <$> (NewServices (ServiceBuilder s) rcvr segs).1)) ∧
     ((∀ path, path ∈ routers s → pathMatches path = true) →
      (∀ svc, svc ∈ (NewServices (ServiceBuilder s) rcvr segs).1 →
              pathMatches (GetPath svc) = true) →
      ∀ path, path ∈ routers s' → pathMatches path = true)) ∧
  (∀ svc, (NewServices (ServiceBuilder s) rcvr segs).2 = None →
          svc ∈ (NewServices (ServiceBuilder s) rcvr segs).1 →
          is_Some (serviceMap s !! GetPath svc) →
          ∃ errs s' tr', register segs rcvr p md s tr = Fatal errs s' tr' ∧
                         ErrServiceAlreadyExists (GetPath svc) ∈ errs).
Proof.
  intros [Hnd Hkeys]. split.
  - intros s' tr' Hreg.
    destruct (register_Registered _ _ _ _ _ _ _ _ Hreg) as (services & Hnew & Hne & Hclean & ->).
    rewrite Hnew. cbn [fst].
    destruct (register_loop_clean _ _ _ _ Hclean) as (_ & Hndp & Hfree). cbn in Hfree.
    assert (Hmem : ∀ path,
               path ∈ sort_Strings (routers (rs_server
                        (register_loop rcvr p services (mkRegState s md [] tr))))
               ↔ path ∈ routers s ∨ path ∈ (GetPath <$> services)).
    { intros path. unfold sort_Strings. rewrite merge_sort_Permutation.
      rewrite register_loop_routers. cbn. apply elem_of_app. }
    split; [split|split; [|split]].
    + cbn. unfold sort_Strings. rewrite merge_sort_Permutation.
      rewrite register_loop_routers. cbn. apply NoDup_app. split; [done|]. split; [|done].
      intros path Hin Hin'. apply Hkeys in Hin as [old Hold].
      apply list_elem_of_fmap in Hin' as (svc & -> & Hsvc).
      rewrite (Hfree svc Hsvc) in Hold. done.
    + intros path. cbn [routers serviceMap set_routers]. rewrite Hmem.
      rewrite register_loop_map. cbn. by rewrite Hkeys.
    + cbn. apply StronglySorted_merge_sort; apply _.
    + intros path. cbn [routers set_routers]. apply Hmem.
    + intros Hold Hbuilt path. cbn [routers set_routers]. rewrite Hmem.
      intros [Hin|Hin]; [by apply Hold|].
      apply list_elem_of_fmap in Hin as (svc & -> & Hsvc). by apply Hbuilt.
  - intros svc Herr Hin Hsome. unfold register.
    destruct (NewServices (ServiceBuilder s) rcvr segs) as [services err]. cbn in *. subst err.
    destruct (decide (List.length services = 0)) as [Hz|_].
    { destruct services; [by apply elem_of_nil in Hin|done]. }
    pose proof (register_loop_present rcvr p services (mkRegState s md [] tr) svc Hin Hsome) as He.
    destruct (decide (0 < List.length (rs_errs _))) as [_|Hz].
    + eexists _, _, _. split; [reflexivity|done].
    + destruct (rs_errs _); [by apply elem_of_nil in He|]. cbn in Hz. lia.
Qed.

(** Every response a call task writes, on the normal path or from the
  deferred function, answers the request the Context holds: [call] writes
  exactly one response and it mirrors the request header. *)
Lemma call_mirrors_request cn c tr :
  ∃ c' hdr body before logs,
    call cn c tr = Normal (c', tr ++ before ++ EvWriteResponse hdr body :: logs) ∧
    no_write before = true ∧ no_write logs = true ∧
    RespSeq hdr = ReqSeq (req c) ∧
    RespServiceMethod hdr = ReqServiceMethod (req c).
Proof.
  assert (Hrecover : ∀ p c0, req c0 = req c →
            ∃ c' hdr body logs,
              sendResponse cn (set_rpcErrorType ErrorTypeServerServicePanic c0) "Service Panic!"
                (tr ++ [EvLog Critical p])
              = Normal (c', tr ++ [EvLog Critical p] ++ EvWriteResponse hdr body :: logs) ∧
              no_write logs = true ∧
              RespSeq hdr = ReqSeq (req c) ∧ RespServiceMethod hdr = ReqServiceMethod (req c)).
  { intros p c0 Hreq. rewrite sendResponse_error by done. cbn. rewrite Hreq.
    eexists _, _, _, _. split; [by rewrite <- app_assoc|].
    split; [apply no_write_log_tail|done]. }
  assert (Hsend : ∀ c2 m, req c2 = req c →
            ∃ c' hdr body before logs,
              match sendResponse cn c2 m tr with
              | Normal r => Normal r
              | Panicked p (ctx, tr) =>
                  sendResponse cn (set_rpcErrorType ErrorTypeServerServicePanic ctx) "Service Panic!"
                    (tr ++ [EvLog Critical ("rpc: (" +:+ ReqServiceMethod (req ctx) +:+ "): " +:+ p)])
              end = Normal (c', tr ++ before ++ EvWriteResponse hdr body :: logs) ∧
              no_write before = true ∧ no_write logs = true ∧
              RespSeq hdr = ReqSeq (req c) ∧ RespServiceMethod hdr = ReqServiceMethod (req c)).
  { intros c2 m Hreq.
    destruct (sendResponse_cases cn c2 m tr)
      as [(hdr & body & logs & -> & Hnw & Hseq & Hsm)|(p & ctx' & -> & Hreq')].
    - rewrite Hreq in Hseq, Hsm. exists (set_resp hdr c2), hdr, body, [], logs. done.
    - destruct (Hrecover ("rpc: (" +:+ ReqServiceMethod (req ctx') +:+ "): " +:+ p) ctx')
        as (c' & hdr & body & logs & -> & Hnw & Hseq & Hsm); [congruence|].
      eexists c', hdr, body, [_], logs. done. }
  unfold call, call_body.
  destruct (service c) as [svc|].
  - destruct (Call svc (argv c)) as [rv [e|]|p].
    + apply Hsend. reflexivity.
    + apply Hsend. reflexivity.
    + destruct (Hrecover ("rpc: (" +:+ ReqServiceMethod (req c) +:+ "): " +:+ p) c eq_refl)
        as (c' & hdr & body & logs & -> & Hnw & Hseq & Hsm).
      eexists c', hdr, body, [_], logs. done.
  - destruct (Hrecover ("rpc: (" +:+ ReqServiceMethod (req c) +:+ "): "
                          +:+ "invalid memory address or nil pointer dereference") c eq_refl)
      as (c' & hdr & body & logs & -> & Hnw & Hseq & Hsm).
    eexists c', hdr, body, [_], logs. done.
Qed.

Lemma registry_ok_init s : registry_ok (init s).
Proof.
  split; [constructor|]. intros path. cbn. rewrite lookup_empty. split.
  - intros H. by apply elem_of_nil in H.
  - intros [x Hx]. done.
Qed.

Lemma registry_ok_empty s :
  routers s = [] → serviceMap s = ∅ → registry_ok s.
Proof.
  intros Hr Hm. split; rewrite Hr; [constructor|].
  intros path. rewrite Hm, lookup_empty. split.
  - intros H. by apply elem_of_nil in H.
  - intros [x Hx]. done.
Qed.

Lemma register_keeps_registry_witness :
  registry_ok ex_server ∧
  ∃ s' tr',
    register ["Arith"] ex_rcvr emptyContainer ["m"] ex_server [] = Registered s' tr' ∧
    registry_ok s' ∧ StronglySorted string_le (routers s').
Proof.
  assert (H0 : registry_ok ex_server) by (by apply registry_ok_empty).
  split; [exact H0|].
  destruct (register ["Arith"] ex_rcvr emptyContainer ["m"] ex_server []) as [s' tr'|errs s' tr'] eqn:E.
  - exists s', tr'. split; [reflexivity|].
    destruct (proj1 (register_keeps_registry ["Arith"] ex_rcvr emptyContainer ["m"] ex_server [] H0)
                s' tr' E) as (Hok & Hsorted & _).
    split; assumption.
  - exfalso. vm_compute in E. discriminate E.
Defined.

(** C7 (as stated, refuted).  A server whose builder percent-escapes a
    method name registers the escaped path: the registration succeeds and
    the registry holds a path with a ['%'], outside the character class. *)
Lemma register_accepts_unchecked_path :
  ∃ s' tr',
    NamedRegister "Arith" ex_rcvr [] ex_server_uber [] = Registered s' tr' ∧
    routers s' = ["/arith/%C3%9Cber"] ∧
    is_Some (serviceMap s' !! "/arith/%C3%9Cber") ∧
    pathMatches "/arith/%C3%9Cber" = false.
Proof.
  eexists _, _. split; [vm_compute; reflexivity|].
  split; [reflexivity|]. split; [|reflexivity].
  vm_compute. eexists. reflexivity.
Qed.

(** The four entry points check the name and hand over to [register]. *)
Lemma NamedRegister_checks_name name rcvr md s tr s' tr' :
  NamedRegister name rcvr md s tr = Registered s' tr' →
  MatchString name = true ∧
  register [name] rcvr emptyContainer md s tr = Registered s' tr'.
Proof.
  unfold NamedRegister, CheckSname. destruct (MatchString name); cbn; done.
Qed.

Lemma Group_NamedRegister_checks_name group name rcvr md s tr s' tr' :
  Group_NamedRegister group name rcvr md s tr = Registered s' tr' →
  MatchString name = true ∧
  register (prefixes group ++ [name]) rcvr
           (default emptyContainer (group_PluginContainer group)) md s tr
    = Registered s' tr'.
Proof.
  unfold Group_NamedRegister, CheckSname. destruct (MatchString name); cbn; [|done].
  destruct (group_PluginContainer group); done.
Qed.

(** *** The register hooks *)

Lemma register_loop_trace rcvr p services : ∀ st,
  rs_trace (register_loop rcvr p services st)
    = rs_trace st ++ hook_events rcvr (baseMetadata (rs_server st)) (rs_metadata st) services.
Proof.
  induction services as [|svc rest IH]; intros st; cbn [register_loop hook_events].
  - by rewrite app_nil_r.
  - rewrite IH.
    destruct (register_step_server rcvr p st svc) as (_ & _ & -> & ->).
    cbn. rewrite <- !app_assoc. reflexivity.
Qed.

(** C9 (the code departs from the claim).  The loop appends the base
    metadata to the running [metadata] slice once per service, so the hooks
    of the k-th service receive it k times.  The order is as claimed:
    server-wide container, then scoped container.  Run on the sample
    receiver with two methods, metadata ["m"] and base metadata ["v1"]: the
    hooks of the second path are handed ["m"; "v1"; "v1"]. *)
Theorem register_repeats_baseMetadata :
  (∀ rcvr p services st,
      rs_metadata (register_loop rcvr p services st)
        = rs_metadata st ++ replicate (List.length services) (baseMetadata (rs_server st))) ∧
  reg_trace (register ["Arith"] ex_rcvr emptyContainer ["m"] ex_server [])
  = [EvDoRegister ServerWide "/arith/mul" ex_rcvr ["m"; "v1"];
     EvDoRegister Scoped "/arith/mul" ex_rcvr ["m"; "v1"];
     EvLog Info "rpc: route ->	/arith/mul";
     EvDoRegister ServerWide "/arith/boom" ex_rcvr ["m"; "v1"; "v1"];
     EvDoRegister Scoped "/arith/boom" ex_rcvr ["m"; "v1"; "v1"];
     EvLog Info "rpc: route ->	/arith/boom"].
Proof.
  split.
  - intros rcvr p services st. apply register_loop_metadata.
  - vm_compute. reflexivity.
Qed.

(** *** The accept loop *)

Example accept_closed_listener_is_silent :
  accept_loop ex_server
    [Accepted 7; AcceptFailed (Err "accept tcp 127.0.0.1:8080: use of closed network connection")]
    [] []
  = (true, [7], []).
Proof. reflexivity. Qed.

(** *** The wait-group *)

Lemma putContext_callGroup ctx s : callGroup (putContext ctx s) = callGroup s.
Proof. reflexivity. Qed.

Lemma runTask_balance i w w' :
  runTask i w = Normal w' →
  (callGroup (w_server w') - Z.of_nat (List.length (w_pending w'))
   = callGroup (w_server w) - Z.of_nat (List.length (w_pending w)))%Z.
Proof.
  unfold runTask. destruct (w_pending w !! i) as [c|] eqn:Hi.
  - unfold callTask. cbn.
    destruct (call (w_conn w) c (w_trace w)) as [[c' tr']|p [c' tr']]; [|done].
    intros [= <-]. cbn.
    pose proof (lookup_lt_Some _ _ _ Hi) as Hlt.
    rewrite length_delete by eauto. lia.
  - by intros [= <-].
Qed.

Lemma ServeConn_iter_balance item w ctl w' :
  ServeConn_iter item w = Normal (ctl, w') →
  (callGroup (w_server w') - Z.of_nat (List.length (w_pending w'))
   = callGroup (w_server w) - Z.of_nat (List.length (w_pending w)))%Z.
Proof.
  unfold ServeConn_iter.
  destruct (getContext_server (connRef (w_conn w)) (w_server w)) as [Hcg _].
  destruct (getContext (connRef (w_conn w)) (w_server w)) as [ctx0 s0]. cbn in Hcg.
  destruct (readRequest item ctx0 (w_trace w)) as [[[[[kr ns] err] ctx1] tr1]|p [[? ?] ?]]; [|done].
  destruct err as [e|].
  - destruct kr.
    + destruct (if negb ns then _ else _) as [[c2 tr2]|p [c2 tr2]]; [|done].
      intros [= <- <-]. cbn. lia.
    + intros [= <- <-]. cbn. lia.
  - intros [= <- <-]. cbn. rewrite length_app. cbn. lia.
Qed.

(** *** Responses answer requests *)

Lemma no_write_answers rs evs : no_write evs = true → answers rs evs.
Proof.
  intros Hnw hdr body Hin. apply list_elem_of_In in Hin.
  unfold no_write in Hnw. rewrite forallb_forall in Hnw.
  specialize (Hnw _ Hin). done.
Qed.

Lemma answers_app rs a b : answers rs a → answers rs b → answers rs (a ++ b).
Proof.
  intros Ha Hb hdr body Hin. apply elem_of_app in Hin as [Hin|Hin]; eauto.
Qed.

Lemma answers_mono rs rs' evs : rs ⊆ rs' → answers rs evs → answers rs' evs.
Proof.
  intros Hsub Ha hdr body Hin. destruct (Ha hdr body Hin) as (r & Hr & ?). eauto.
Qed.

Lemma answers_one r hdr body :
  RespSeq hdr = ReqSeq r → RespServiceMethod hdr = ReqServiceMethod r →
  answers [r] [EvWriteResponse hdr body].
Proof.
  intros Hs Hm hdr' body' Hin. apply list_elem_of_singleton in Hin as [= -> ->].
  exists r. split; [apply list_elem_of_singleton|]; done.
Qed.

Lemma sendResponse_answers cn ctx errmsg tr :
  ∃ new, snd (outcome_state (sendResponse cn ctx errmsg tr)) = tr ++ new ∧
         answers [req ctx] new.
Proof.
  destruct (sendResponse_cases cn ctx errmsg tr)
    as [(hdr & body & logs & -> & Hnw & Hseq & Hsm)|(p & ctx' & -> & _)]; cbn.
  - exists (EvWriteResponse hdr body :: logs). split; [done|].
    apply (answers_app _ [_] logs); [by apply answers_one|by apply no_write_answers].
  - exists []. split; [by rewrite app_nil_r|]. by apply no_write_answers.
Qed.

Lemma call_answers cn c tr :
  ∃ c' new, call cn c tr = Normal (c', tr ++ new) ∧ answers [req c] new.
Proof.
  destruct (call_mirrors_request cn c tr)
    as (c' & hdr & body & before & logs & -> & Hb & Hl & Hseq & Hsm).
  exists c', (before ++ EvWriteResponse hdr body :: logs). split; [done|].
  apply answers_app; [by apply no_write_answers|].
  apply (answers_app _ [_] logs); [by apply answers_one|by apply no_write_answers].
Qed.

Lemma readRequest_req h ctx tr :
  req (snd (fst (outcome_state (readRequest (Some h) ctx tr)))) = hr_req h.
Proof.
  unfold readRequest. cbn.
  destruct (hr_err h) as [e|]; cbn.
  - destruct (hr_keepReading h); reflexivity.
  - destruct (hr_service h); reflexivity.
Qed.

Lemma readRequest_EOF ctx tr :
  readRequest None ctx tr = Normal ((false, false, Some EOF), ctx, tr).
Proof. reflexivity. Qed.

Lemma runTask_answers i w :
  ∃ w' new,
    runTask i w = Normal w' ∧ w_trace w' = w_trace w ++ new ∧
    answers (req <$> w_pending w) new ∧
    (req <$> w_pending w') ⊆ (req <$> w_pending w).
Proof.
  unfold runTask. destruct (w_pending w !! i) as [c|] eqn:Hi.
  - unfold callTask. cbn.
    destruct (call_answers (w_conn w) c (w_trace w)) as (c' & new & -> & Hans).
    eexists _, new. split; [reflexivity|]. cbn. split; [done|]. split.
    + eapply answers_mono; [|exact Hans].
      intros r Hr. apply list_elem_of_singleton in Hr as ->.
      apply list_elem_of_fmap. exists c. split; [done|]. by eapply list_elem_of_lookup_2.
    + intros r Hr. apply list_elem_of_fmap in Hr as (c0 & -> & Hc0).
      apply list_elem_of_fmap. exists c0. split; [done|].
      by eapply list_elem_of_delete_inv.
  - exists w, []. split; [done|]. split; [by rewrite app_nil_r|].
    split; [by apply no_write_answers|done].
Qed.

Lemma ServeConn_iter_answers item w :
  ∃ new,
    w_trace (snd (outcome_state (ServeConn_iter item w))) = w_trace w ++ new ∧
    answers (item_reqs item) new ∧
    (req <$> w_pending (snd (outcome_state (ServeConn_iter item w))))
      ⊆ (req <$> w_pending w) ++ item_reqs item.
Proof.
  unfold ServeConn_iter.
  destruct (getContext (connRef (w_conn w)) (w_server w)) as [ctx0 s0].
  destruct (readRequest_no_write item ctx0 (w_trace w)) as (new0 & Htr & Hnw).
  assert (Hreq : ∀ h, item = Some h →
            req (snd (fst (outcome_state (readRequest item ctx0 (w_trace w))))) = hr_req h).
  { intros h ->. apply readRequest_req. }
  assert (Hnone : item = None →
            readRequest item ctx0 (w_trace w) = Normal ((false, false, Some EOF), ctx0, w_trace w)).
  { intros ->. apply readRequest_EOF. }
  destruct (readRequest item ctx0 (w_trace w)) as [[[[[kr ns] err] ctx1] tr1]|p [[? ?] tr1]];
    cbn in Htr, Hreq; subst tr1.
  - destruct err as [e|].
    + cbv zeta.
      assert (Hlog : ∃ new1,
                (if decide (e = EOF) then w_trace w ++ new0
                 else (w_trace w ++ new0) ++ [EvLog Debug ("rpc: " +:+ Error e)])
                = w_trace w ++ new1 ∧ no_write new1 = true).
      { destruct (decide (e = EOF)).
        - by exists new0.
        - exists (new0 ++ [EvLog Debug ("rpc: " +:+ Error e)]).
          split; [by rewrite app_assoc|]. by rewrite no_write_app, Hnw. }
      destruct Hlog as (new1 & Hlog & Hnw1).
      match goal with
      | |- context [sendResponse _ _ _ ?t] => change t with
            (if decide (e = EOF) then w_trace w ++ new0
             else (w_trace w ++ new0) ++ [EvLog Debug ("rpc: " +:+ Error e)])
      end.
      rewrite Hlog.
      destruct kr.
      * destruct ns; cbn [negb].
        -- cbn. exists new1. split; [done|]. split; [by apply no_write_answers|].
           intros r Hr. apply elem_of_app. by left.
        -- destruct item as [h|]; [|by specialize (Hnone eq_refl)].
           specialize (Hreq h eq_refl).
           destruct (sendResponse_answers (w_conn w) ctx1 (Error e) (w_trace w ++ new1))
             as (new2 & Hs & Hans).
           rewrite Hreq in Hans.
           destruct (sendResponse (w_conn w) ctx1 (Error e) (w_trace w ++ new1))
             as [[c2 tr2]|p [c2 tr2]]; cbn in Hs; subst tr2; cbn.
           ++ exists (new1 ++ new2). split; [by rewrite app_assoc|].
              split; [apply answers_app; [by apply no_write_answers|done]|].
              intros r Hr. apply elem_of_app. by left.
           ++ exists (new1 ++ new2). split; [by rewrite app_assoc|].
              split; [apply answers_app; [by apply no_write_answers|done]|].
              intros r Hr. apply elem_of_app. by left.
      * cbn. exists new1. split; [done|]. split; [by apply no_write_answers|].
        intros r Hr. apply elem_of_app. by left.
    + cbn. exists new0. split; [done|]. split; [by apply no_write_answers|].
      destruct item as [h|]; [|by specialize (Hnone eq_refl)].
      rewrite fmap_app. cbn. rewrite (Hreq h eq_refl). done.
  - cbn. exists new0. split; [done|]. split; [by apply no_write_answers|].
    intros r Hr. apply elem_of_app. by left.
Qed.

Lemma requests_step (pend pend' : list Request) h rest :
  pend' ⊆ pend ++ [h] → pend' ++ rest ⊆ pend ++ h :: rest.
Proof.
  intros Hsub r Hr. apply elem_of_app in Hr as [Hr|Hr].
  - apply Hsub, elem_of_app in Hr as [Hr|Hr]; apply elem_of_app; [by left|right].
    apply list_elem_of_singleton in Hr as ->. by left.
  - apply elem_of_app. right. by right.
Qed.

Lemma requests_here (pend : list Request) h rest : [h] ⊆ pend ++ h :: rest.
Proof.
  intros r Hr. apply list_elem_of_singleton in Hr as ->. apply elem_of_app. right. by left.
Qed.

Lemma requests_fewer (pend pend' rest : list Request) :
  pend' ⊆ pend → pend' ++ rest ⊆ pend ++ rest.
Proof.
  intros Hsub r Hr. apply elem_of_app in Hr as [Hr|Hr]; apply elem_of_app; auto.
Qed.

Lemma requests_pending (pend rest : list Request) : pend ⊆ pend ++ rest.
Proof. intros r Hr. apply elem_of_app. by left. Qed.

(** X10.  Every response written while a connection is served, by the
  reader or by a call task, on normal and on panic paths, carries the
  [seq] and [service_method] of a request that arrived on the connection
  or of a call that was pending when the loop started. *)
Theorem ServeConn_loop_answers sch : ∀ w,
  ∃ new,
    w_trace (outcome_state (ServeConn_loop sch w)) = w_trace w ++ new ∧
    answers ((req <$> w_pending w) ++ reqs_of sch) new.
Proof.
  induction sch as [|[h|i] rest IH]; intros w; cbn [ServeConn_loop reqs_of].
  - destruct (isRunning (w_server w)).
    + destruct (ServeConn_iter_answers None w) as (new & Htr & Hans & _).
      exists new. split.
      * by destruct (ServeConn_iter None w) as [[ctl w1]|p [ctl w1]].
      * eapply answers_mono; [|exact Hans]. intros r Hr. by apply elem_of_nil in Hr.
    + exists []. cbn. split; [by rewrite app_nil_r|]. by apply no_write_answers.
  - destruct (isRunning (w_server w)).
    + destruct (ServeConn_iter_answers (Some h) w) as (new & Htr & Hans & Hpend).
      destruct (ServeConn_iter (Some h) w) as [[[|] w1]|p [ctl w1]]; cbn in Htr, Hans, Hpend; cbn.
      * destruct (IH w1) as (new' & Htr' & Hans').
        exists (new ++ new'). split; [by rewrite Htr', Htr, app_assoc|].
        apply answers_app.
        -- eapply answers_mono; [|exact Hans]. apply requests_here.
        -- eapply answers_mono; [|exact Hans']. by apply requests_step.
      * exists new. split; [done|]. eapply answers_mono; [|exact Hans]. apply requests_here.
      * exists new. split; [done|]. eapply answers_mono; [|exact Hans]. apply requests_here.
    + exists []. cbn. split; [by rewrite app_nil_r|]. by apply no_write_answers.
  - destruct (runTask_answers i w) as (w1 & new & -> & Htr & Hans & Hpend).
    destruct (IH w1) as (new' & Htr' & Hans').
    exists (new ++ new'). split; [by rewrite Htr', Htr, app_assoc|].
    apply answers_app.
    + eapply answers_mono; [|exact Hans]. apply requests_pending.
    + eapply answers_mono; [|exact Hans']. by apply requests_fewer.
Qed.


(** *** The paths of one loop pass *)

(** X11.  When [readRequest] reports a framed header with an error and no
  veto ([keep_reading = true], [suppress_response = false]) and the error
  message is not empty, the loop pass writes one response with the
  request's [seq] and [service_method], the error message and the
  placeholder body, spawns no task, restores the wait-group and goes on
  reading. *)
Theorem ServeConn_iter_error_response item w e ctx1 tr1 :
  readRequest item (fst (getContext (connRef (w_conn w)) (w_server w))) (w_trace w)
    = Normal ((true, false, Some e), ctx1, tr1) →
  Error e ≠ "" →
  ∃ w' pre logs,
    ServeConn_iter item w = Normal (Continue, w') ∧
    w_trace w' = tr1 ++ pre ++
                 EvWriteResponse (mkResponse (ReqServiceMethod (req ctx1)) (ReqSeq (req ctx1)) (Error e))
                                 invalidRequest :: logs ∧
    no_write pre = true ∧ no_write logs = true ∧
    w_pending w' = w_pending w ∧
    callGroup (w_server w') = callGroup (w_server w).
Proof.
  intros Hr Hmsg. unfold ServeConn_iter.
  destruct (getContext_server (connRef (w_conn w)) (w_server w)) as [Hcg _].
  destruct (getContext (connRef (w_conn w)) (w_server w)) as [ctx0 s0]. cbn in *.
  rewrite Hr. cbn.
  rewrite sendResponse_error by done. cbn.
  destruct (decide (e = EOF)) as [He|He].
  - eexists _, [], _. split; [reflexivity|]. cbn.
    split; [reflexivity|]. split; [done|]. split; [apply no_write_log_tail|]. split; [done|lia].
  - eexists _, [_], _. split; [reflexivity|]. cbn.
    split; [by rewrite <- app_assoc|]. split; [done|].
    split; [apply no_write_log_tail|]. split; [done|lia].
Qed.

Lemma ServeConn_iter_error_response_witness :
  ∃ w' pre logs,
    ServeConn_iter (Some ex_req_unknown) ex_world = Normal (Continue, w') ∧
    w_trace w' = [EvReadRequestBody None] ++ pre ++
                 EvWriteResponse (mkResponse "/nope" 3 "rpc: can't find service/method /nope")
                                 invalidRequest :: logs ∧
    no_write pre = true ∧ no_write logs = true ∧
    w_pending w' = w_pending ex_world ∧
    callGroup (w_server w') = callGroup (w_server ex_world).
Proof.
  apply (ServeConn_iter_error_response (Some ex_req_unknown) ex_world
           (Err "rpc: can't find service/method /nope")
           (set_service None (set_req (mkRequest "/nope" 3) (fst (getContext 7 ex_server))))
           [EvReadRequestBody None]).
  - reflexivity.
  - discriminate.
Defined.

(** X12.  When [readRequest] reports [keep_reading = false], the loop pass
  ends the loop: it logs the error unless it is [io.EOF], writes nothing,
  puts the Context back and restores the wait-group. *)
Theorem ServeConn_iter_stops item w ns e ctx1 tr1 :
  readRequest item (fst (getContext (connRef (w_conn w)) (w_server w))) (w_trace w)
    = Normal ((false, ns, Some e), ctx1, tr1) →
  ∃ w',
    ServeConn_iter item w = Normal (Break, w') ∧
    w_trace w' = tr1 ++ (if decide (e = EOF) then [] else [EvLog Debug ("rpc: " +:+ Error e)]) ∧
    contextPool (w_server w')
      = resetContext ctx1 :: contextPool (snd (getContext (connRef (w_conn w)) (w_server w))) ∧
    w_pending w' = w_pending w ∧
    callGroup (w_server w') = callGroup (w_server w).
Proof.
  intros Hr. unfold ServeConn_iter.
  destruct (getContext_server (connRef (w_conn w)) (w_server w)) as [Hcg _].
  destruct (getContext (connRef (w_conn w)) (w_server w)) as [ctx0 s0]. cbn in *.
  rewrite Hr. cbn.
  eexists. split; [reflexivity|]. cbn.
  split; [by destruct (decide (e = EOF)); [rewrite app_nil_r|]|].
  split; [done|]. split; [done|lia].
Qed.

Lemma ServeConn_iter_stops_witness :
  ∃ w',
    ServeConn_iter None ex_world = Normal (Break, w') ∧
    w_trace w' = [] ++ (if decide (EOF = EOF) then [] else [EvLog Debug ("rpc: " +:+ Error EOF)]) ∧
    contextPool (w_server w')
      = resetContext (fst (getContext 7 ex_server))
        :: contextPool (snd (getContext (connRef (w_conn ex_world)) (w_server ex_world))) ∧
    w_pending w' = w_pending ex_world ∧
    callGroup (w_server w') = callGroup (w_server ex_world).
Proof.
  apply (ServeConn_iter_stops None ex_world false EOF (fst (getContext 7 ex_server)) []).
  reflexivity.
Defined.

(** *** How a call ends *)

(** X13.  When the invoker returns an error with a non-empty message,
  [call] tags the Context as a service error, keeps the reply Value the
  invoker returned, and writes one response that carries the message and
  the placeholder body instead of the reply. *)
Theorem call_service_error cn c tr svc rv e :
  service c = Some svc →
  Call svc (argv c) = Returns rv (Some e) →
  Error e ≠ "" →
  ∃ c' logs,
    call cn c tr
      = Normal (c', tr ++ EvWriteResponse
                            (mkResponse (ReqServiceMethod (req c)) (ReqSeq (req c)) (Error e))
                            invalidRequest :: logs) ∧
    no_write logs = true ∧
    rpcErrorType c' = ErrorTypeServerService ∧
    replyv c' = rv.
Proof.
  intros Hs Hc Hmsg. unfold call, call_body. rewrite Hs, Hc. cbn.
  rewrite sendResponse_error by done. cbn.
  eexists _, _. split; [reflexivity|]. split; [apply no_write_log_tail|done].
Qed.

Lemma call_service_error_witness :
  ∃ c' logs,
    call ex_conn (set_service (Some ex_fail) ex_ctx) []
      = Normal (c', [] ++ EvWriteResponse (mkResponse "/arith/mul" 2 "division by zero")
                                          invalidRequest :: logs) ∧
    no_write logs = true ∧
    rpcErrorType c' = ErrorTypeServerService ∧
    replyv c' = ValueOf (boxed true "").
Proof.
  apply (call_service_error ex_conn (set_service (Some ex_fail) ex_ctx) [] ex_fail
           (ValueOf (boxed true "")) (Err "division by zero")).
  - reflexivity.
  - reflexivity.
  - discriminate.
Defined.

(** X14.  When the invoker returns no error and a zero reply Value, taking
  the reply's interface panics inside [sendResponse] before anything is
  written; the deferred function of [call] recovers, so the client gets
  one "Service Panic!" response and the Context carries the panic tag. *)
Theorem call_zero_reply cn c tr svc :
  service c = Some svc →
  Call svc (argv c) = Returns ZeroValue None →
  ∃ c' logged logs,
    call cn c tr
      = Normal (c', tr ++ EvLog Critical logged
                       :: EvWriteResponse
                            (mkResponse (ReqServiceMethod (req c)) (ReqSeq (req c)) "Service Panic!")
                            invalidRequest :: logs) ∧
    no_write logs = true ∧
    rpcErrorType c' = ErrorTypeServerServicePanic.
Proof.
  intros Hs Hc. unfold call, call_body. rewrite Hs, Hc. cbn.
  destruct (writeErr _ _ _); eexists _, _, _; (split; [by rewrite <- !app_assoc|done]).
Qed.

Lemma call_zero_reply_witness :
  ∃ c' logged logs,
    call ex_conn (set_service (Some ex_void) ex_ctx) []
      = Normal (c', [] ++ EvLog Critical logged
                       :: EvWriteResponse (mkResponse "/arith/mul" 2 "Service Panic!")
                                          invalidRequest :: logs) ∧
    no_write logs = true ∧
    rpcErrorType c' = ErrorTypeServerServicePanic.
Proof.
  apply (call_zero_reply ex_conn (set_service (Some ex_void) ex_ctx) [] ex_void); reflexivity.
Defined.

(** X15.  When the invoker returns an error whose message is empty,
  together with a valid reply, the response is written as for a success:
  its body is the reply and its error field is the one the Context held
  before; only the Context's tag says service error. *)
Theorem call_silent_error cn c tr svc reply e :
  service c = Some svc →
  Call svc (argv c) = Returns (ValueOf reply) (Some e) →
  Error e = "" →
  ∃ c' logs,
    call cn c tr
      = Normal (c', tr ++ EvWriteResponse
                            (mkResponse (ReqServiceMethod (req c)) (ReqSeq (req c))
                                        (RespError (resp c)))
                            reply :: logs) ∧
    no_write logs = true ∧
    rpcErrorType c' = ErrorTypeServerService.
Proof.
  intros Hs Hc Hmsg. unfold call, call_body. rewrite Hs, Hc. cbn -[sendResponse].
  rewrite Hmsg. rewrite (sendResponse_reply _ _ reply) by done. cbn.
  eexists _, _. split; [reflexivity|]. split; [apply no_write_log_tail|done].
Qed.

Lemma call_silent_error_witness :
  ∃ c' logs,
    call ex_conn (set_service (Some ex_quiet) ex_ctx) []
      = Normal (c', [] ++ EvWriteResponse (mkResponse "/arith/mul" 2 "") (boxed true "0") :: logs) ∧
    no_write logs = true ∧
    rpcErrorType c' = ErrorTypeServerService.
Proof.
  apply (call_silent_error ex_conn (set_service (Some ex_quiet) ex_ctx) [] ex_quiet
           (boxed true "0") (Err "")); reflexivity.
Defined.

(** *** Closing the connection *)

Lemma sendResponse_no_close cn ctx errmsg tr :
  ∃ new, snd (outcome_state (sendResponse cn ctx errmsg tr)) = tr ++ new ∧ no_close new = true.
Proof.
  destruct (decide (errmsg = "")) as [->|Hne].
  - destruct (replyv ctx) as [|reply] eqn:Hr.
    + destruct (sendResponse_zero_reply cn ctx tr Hr) as (p & ctx' & ->).
      exists []. by rewrite app_nil_r.
    + rewrite (sendResponse_reply cn ctx reply tr Hr). cbn.
      eexists. split; [reflexivity|]. by destruct (writeErr _ _ _).
  - rewrite (sendResponse_error cn ctx errmsg tr Hne). cbn.
    eexists. split; [reflexivity|]. by destruct (writeErr _ _ _).
Qed.

Lemma call_no_close cn c tr :
  ∃ c' new, call cn c tr = Normal (c', tr ++ new) ∧ no_close new = true.
Proof.
  assert (Hrecover : ∀ p c0 tr0 new0, no_close new0 = true → tr0 = tr ++ new0 →
            ∃ c' new,
              sendResponse cn (set_rpcErrorType ErrorTypeServerServicePanic c0) "Service Panic!"
                (tr0 ++ [EvLog Critical p]) = Normal (c', tr ++ new) ∧ no_close new = true).
  { intros p c0 tr0 new0 Hn0 ->. rewrite sendResponse_error by done. cbn.
    eexists _, (new0 ++ _). split; [by rewrite <- !app_assoc|].
    rewrite no_close_app, Hn0. by destruct (writeErr _ _ _). }
  unfold call.
  destruct (call_body cn c tr) as [[c1 tr1]|p [c1 tr1]] eqn:Hbody.
  - unfold call_body in Hbody.
    destruct (service c) as [svc|]; [|done].
    destruct (Call svc (argv c)) as [rv err|p]; [|done].
    destruct err as [e|]; cbn in Hbody;
      match type of Hbody with
      | sendResponse cn ?c2 ?m tr = _ =>
          destruct (sendResponse_no_close cn c2 m tr) as (new & Hs & Hn)
      end; rewrite Hbody in Hs; cbn in Hs; subst tr1; eauto.
  - assert (Htr : ∃ new0, tr1 = tr ++ new0 ∧ no_close new0 = true).
    { unfold call_body in Hbody.
      destruct (service c) as [svc|];
        [|injection Hbody as _ _ <-; exists []; by rewrite app_nil_r].
      destruct (Call svc (argv c)) as [rv err|q];
        [|injection Hbody as _ _ <-; exists []; by rewrite app_nil_r].
      destruct err as [e|]; cbn in Hbody;
        match type of Hbody with
        | sendResponse cn ?c2 ?m tr = _ =>
            destruct (sendResponse_no_close cn c2 m tr) as (new & Hs & Hn)
        end; rewrite Hbody in Hs; cbn in Hs; eauto. }
    destruct Htr as (new0 & -> & Hn0). by eapply Hrecover.
Qed.

Lemma readRequest_no_close item ctx tr :
  ∃ new, snd (outcome_state (readRequest item ctx tr)) = tr ++ new ∧ no_close new = true.
Proof.
  unfold readRequest.
  destruct (readRequestHeader item ctx) as [[[kr ns] err] ctx1].
  destruct err as [e|].
  - destruct kr; cbn.
    + exists [EvReadRequestBody None]. done.
    + exists []. by rewrite app_nil_r.
  - destruct (service ctx1) as [svc|]; cbn.
    + exists [EvReadRequestBody (Some (boxed true ""))]. done.
    + exists []. by rewrite app_nil_r.
Qed.

Lemma runTask_no_close i w :
  ∃ w' new, runTask i w = Normal w' ∧ w_trace w' = w_trace w ++ new ∧ no_close new = true ∧
            w_conn w' = w_conn w.
Proof.
  unfold runTask. destruct (w_pending w !! i) as [c|].
  - unfold callTask. cbn.
    destruct (call_no_close (w_conn w) c (w_trace w)) as (c' & new & -> & Hn).
    eexists _, new. done.
  - exists w, []. by rewrite app_nil_r.
Qed.

Lemma ServeConn_iter_no_close item w :
  ∃ new,
    w_trace (snd (outcome_state (ServeConn_iter item w))) = w_trace w ++ new ∧
    no_close new = true ∧
    w_conn (snd (outcome_state (ServeConn_iter item w))) = w_conn w.
Proof.
  unfold ServeConn_iter.
  destruct (getContext (connRef (w_conn w)) (w_server w)) as [ctx0 s0].
  destruct (readRequest_no_close item ctx0 (w_trace w)) as (new0 & Htr & Hn).
  destruct (readRequest item ctx0 (w_trace w)) as [[[[[kr ns] err] ctx1] tr1]|p [[? ?] tr1]];
    cbn in Htr; subst tr1; [|by exists new0].
  destruct err as [e|]; [|by exists new0].
  cbv zeta.
  assert (Hlog : ∃ new1,
            (if decide (e = EOF) then w_trace w ++ new0
             else (w_trace w ++ new0) ++ [EvLog Debug ("rpc: " +:+ Error e)])
            = w_trace w ++ new1 ∧ no_close new1 = true).
  { destruct (decide (e = EOF)).
    - by exists new0.
    - exists (new0 ++ [EvLog Debug ("rpc: " +:+ Error e)]).
      split; [by rewrite app_assoc|]. by rewrite no_close_app, Hn. }
  destruct Hlog as (new1 & Hlog & Hn1).
  match goal with
  | |- context [sendResponse _ _ _ ?t] => change t with
        (if decide (e = EOF) then w_trace w ++ new0
         else (w_trace w ++ new0) ++ [EvLog Debug ("rpc: " +:+ Error e)])
  end.
  rewrite Hlog.
  destruct kr; [|by exists new1].
  destruct ns; cbn [negb]; [by exists new1|].
  destruct (sendResponse_no_close (w_conn w) ctx1 (Error e) (w_trace w ++ new1))
    as (new2 & Hs & Hn2).
  destruct (sendResponse (w_conn w) ctx1 (Error e) (w_trace w ++ new1))
    as [[c2 tr2]|p [c2 tr2]]; cbn in Hs; subst tr2; cbn;
    exists (new1 ++ new2); (split; [by rewrite app_assoc|]);
    (split; [by rewrite no_close_app, Hn1, Hn2|done]).
Qed.

Lemma ServeConn_loop_no_close sch : ∀ w,
  ∃ new,
    w_trace (outcome_state (ServeConn_loop sch w)) = w_trace w ++ new ∧
    no_close new = true ∧
    w_conn (outcome_state (ServeConn_loop sch w)) = w_conn w.
Proof.
  induction sch as [|[h|i] rest IH]; intros w; cbn [ServeConn_loop].
  - destruct (isRunning (w_server w)).
    + destruct (ServeConn_iter_no_close None w) as (new & Htr & Hn & Hc).
      exists new. by destruct (ServeConn_iter None w) as [[ctl w1]|p [ctl w1]].
    + exists []. cbn. by rewrite app_nil_r.
  - destruct (isRunning (w_server w)).
    + destruct (ServeConn_iter_no_close (Some h) w) as (new & Htr & Hn & Hc).
      destruct (ServeConn_iter (Some h) w) as [[[|] w1]|p [ctl w1]]; cbn in Htr, Hn, Hc; cbn;
        [|by exists new..].
      destruct (IH w1) as (new' & Htr' & Hn' & Hc').
      exists (new ++ new'). split; [by rewrite Htr', Htr, app_assoc|].
      split; [by rewrite no_close_app, Hn, Hn'|congruence].
    + exists []. cbn. by rewrite app_nil_r.
  - destruct (runTask_no_close i w) as (w1 & new & -> & Htr & Hn & Hc).
    destruct (IH w1) as (new' & Htr' & Hn' & Hc').
    exists (new ++ new'). split; [by rewrite Htr', Htr, app_assoc|].
    split; [by rewrite no_close_app, Hn, Hn'|congruence].
Qed.

Lemma bindCodec_trace s w :
  ∃ new, w_trace (bindCodec s w) = w_trace w ++ new ∧ no_close new = true ∧
         connRef (w_conn (bindCodec s w)) = connRef (w_conn w) ∧
         w_pending (bindCodec s w) = w_pending w ∧
         w_server (bindCodec s w) = w_server w.
Proof.
  unfold bindCodec. destruct (GetServerCodec (w_conn w)); cbn.
  - exists []. by rewrite app_nil_r.
  - by eexists [_].
Qed.

(** X16.  [ServeConn] closes the connection exactly once, as its last
  action, when the reader loop returns; nothing before that closes it, and
  when the reader panics the connection is not closed at all. *)
Theorem ServeConn_closes_last sch w :
  ∃ new,
    no_close new = true ∧
    w_trace (outcome_state (ServeConn sch w))
      = w_trace w ++ new ++
        (if is_Normal (ServeConn sch w) then [EvConnClose (connRef (w_conn w))] else []).
Proof.
  unfold ServeConn.
  destruct (bindCodec_trace (w_server w) w) as (new0 & Htr0 & Hn0 & Hc0 & _).
  destruct (ServeConn_loop_no_close sch (bindCodec (w_server w) w)) as (new & Htr & Hn & Hc).
  destruct (ServeConn_loop sch (bindCodec (w_server w) w)) as [w1|p w1]; cbn in *.
  - exists (new0 ++ new). split; [by rewrite no_close_app, Hn0, Hn|].
    rewrite Htr, Htr0, Hc, Hc0, <- !app_assoc. done.
  - exists (new0 ++ new). split; [by rewrite no_close_app, Hn0, Hn|].
    rewrite Htr, Htr0, app_nil_r, <- !app_assoc. done.
Qed.

(** X17.  [ServeRequest] never closes the connection and never spawns a
  call task, however the request ends. *)
Theorem ServeRequest_leaves_open item w :
  ∃ new,
    w_trace (snd (outcome_state (ServeRequest item w))) = w_trace w ++ new ∧
    no_close new = true ∧
    w_pending (snd (outcome_state (ServeRequest item w))) = w_pending w.
Proof.
  unfold ServeRequest. destruct (isRunning (w_server w)); cbn [negb].
  2:{ exists []. cbn. by rewrite app_nil_r. }
  destruct (bindCodec_trace (w_server w) w) as (new0 & Htr0 & Hn0 & _ & Hp0 & _).
  set (w0 := bindCodec (w_server w) w) in *. clearbody w0.
  destruct (getContext (connRef (w_conn w0)) (w_server w0)) as [ctx0 s0].
  destruct (readRequest_no_close item ctx0 (w_trace w0)) as (new1 & Htr1 & Hn1).
  destruct (readRequest item ctx0 (w_trace w0)) as [[[[[kr ns] err] ctx1] tr1]|p [[? ?] tr1]];
    cbn in Htr1; subst tr1; cbn.
  2:{ exists (new0 ++ new1). rewrite Htr0, <- app_assoc, no_close_app, Hn0, Hn1. done. }
  destruct err as [e|].
  - destruct (sendResponse_no_close (w_conn w0) ctx1 (Error e) (w_trace w0 ++ new1))
      as (new2 & Hs & Hn2).
    destruct (kr && negb ns).
    + destruct (sendResponse (w_conn w0) ctx1 (Error e) (w_trace w0 ++ new1))
        as [[c2 tr2]|p [c2 tr2]]; cbn in Hs; subst tr2; cbn;
        exists (new0 ++ new1 ++ new2);
        rewrite Htr0, <- !app_assoc, !no_close_app, Hn0, Hn1, Hn2; done.
    + cbn. exists (new0 ++ new1). rewrite Htr0, <- app_assoc, no_close_app, Hn0, Hn1. done.
  - destruct (call_no_close (w_conn w0) ctx1 (w_trace w0 ++ new1)) as (c' & new2 & -> & Hn2).
    cbn. exists (new0 ++ new1 ++ new2).
    rewrite Htr0, <- !app_assoc, !no_close_app, Hn0, Hn1, Hn2. done.
Qed.

(** *** The wait-group, panics included *)

Lemma ServeConn_iter_panic_balance item w p ctl w' :
  ServeConn_iter item w = Panicked p (ctl, w') →
  (callGroup (w_server w') - Z.of_nat (List.length (w_pending w'))
   = callGroup (w_server w) - Z.of_nat (List.length (w_pending w)))%Z ∨
  (callGroup (w_server w') - Z.of_nat (List.length (w_pending w'))
   = callGroup (w_server w) - Z.of_nat (List.length (w_pending w)) + 1)%Z.
Proof.
  unfold ServeConn_iter.
  destruct (getContext_server (connRef (w_conn w)) (w_server w)) as [Hcg _].
  destruct (getContext (connRef (w_conn w)) (w_server w)) as [ctx0 s0]. cbn in Hcg.
  destruct (readRequest item ctx0 (w_trace w)) as [[[[[kr ns] err] ctx1] tr1]|q [[? ?] ?]].
  - destruct err as [e|]; [|done].
    destruct kr; [|done].
    destruct (if negb ns then _ else _) as [[c2 tr2]|q [c2 tr2]]; [done|].
    intros [= _ _ <-]. cbn. right. lia.
  - intros [= _ _ <-]. cbn. left. lia.
Qed.

(** X9.  Along the reader loop the wait-group counts the call tasks that
  were spawned and have not finished.  Under every schedule, when the loop
  returns, [callGroup] minus the number of pending tasks is where it was;
  when the reader panics, it is where it was or one higher: the [Add(1)]
  of the pass that panicked in its own [sendResponse] is never undone. *)
Theorem ServeConn_loop_balance sch : ∀ w,
  match ServeConn_loop sch w with
  | Normal w' =>
      (callGroup (w_server w') - Z.of_nat (List.length (w_pending w'))
       = callGroup (w_server w) - Z.of_nat (List.length (w_pending w)))%Z
  | Panicked _ w' =>
      (callGroup (w_server w') - Z.of_nat (List.length (w_pending w'))
       = callGroup (w_server w) - Z.of_nat (List.length (w_pending w)))%Z ∨
      (callGroup (w_server w') - Z.of_nat (List.length (w_pending w'))
       = callGroup (w_server w) - Z.of_nat (List.length (w_pending w)) + 1)%Z
  end.
Proof.
  induction sch as [|[h|i] rest IH]; intros w; cbn [ServeConn_loop].
  - destruct (isRunning (w_server w)); [|done].
    destruct (ServeConn_iter None w) as [[ctl w1]|p [ctl w1]] eqn:Hit.
    + by apply ServeConn_iter_balance in Hit.
    + by apply ServeConn_iter_panic_balance in Hit.
  - destruct (isRunning (w_server w)); [|done].
    destruct (ServeConn_iter (Some h) w) as [[[|] w1]|p [ctl w1]] eqn:Hit.
    + apply ServeConn_iter_balance in Hit. specialize (IH w1).
      destruct (ServeConn_loop rest w1) as [w2|q w2]; lia.
    + by apply ServeConn_iter_balance in Hit.
    + by apply ServeConn_iter_panic_balance in Hit.
  - destruct (runTask_no_close i w) as (w1 & new & Hrun & _). rewrite Hrun.
    apply (runTask_balance i) in Hrun. specialize (IH w1).
    destruct (ServeConn_loop rest w1) as [w2|q w2]; lia.
Qed.

(** The panic that leaves the counter one too high, on the sample
  connection: a framed header whose error has an empty message. *)
Example reader_panic_keeps_count :
  ServeConn_loop [Incoming ex_req_blank] ex_world
  = Panicked "reflect: call of reflect.Value.Interface on zero Value"
             (outcome_state (ServeConn_loop [Incoming ex_req_blank] ex_world)) ∧
  callGroup (w_server (outcome_state (ServeConn_loop [Incoming ex_req_blank] ex_world))) = 1%Z ∧
  w_pending (outcome_state (ServeConn_loop [Incoming ex_req_blank] ex_world)) = [].
Proof. vm_compute. done. Qed.

(** *** Shutdown *)

(** What a call adds to the trace does not depend on the trace so far. *)
Lemma sendResponse_frame cn ctx errmsg :
  (∃ c' new, ∀ tr, sendResponse cn ctx errmsg tr = Normal (c', tr ++ new)) ∨
  (∃ p c', ∀ tr, sendResponse cn ctx errmsg tr = Panicked p (c', tr)).
Proof.
  destruct (decide (errmsg = "")) as [->|Hne].
  - destruct (replyv ctx) as [|reply] eqn:Hr.
    + right. eexists _, _. intros tr. unfold sendResponse. cbn. rewrite Hr. reflexivity.
    + left. eexists _, _. intros tr. rewrite (sendResponse_reply cn ctx reply tr Hr). reflexivity.
  - left. eexists _, _. intros tr. rewrite (sendResponse_error cn ctx errmsg tr Hne). reflexivity.
Qed.

Lemma call_frame cn c : ∃ c' new, ∀ tr, call cn c tr = Normal (c', tr ++ new).
Proof.
  assert (Hrecover : ∀ p c0 new0,
            ∃ c' new, ∀ tr,
              sendResponse cn (set_rpcErrorType ErrorTypeServerServicePanic c0) "Service Panic!"
                ((tr ++ new0) ++ [EvLog Critical p]) = Normal (c', tr ++ new)).
  { intros p c0 new0.
    destruct (sendResponse_frame cn (set_rpcErrorType ErrorTypeServerServicePanic c0) "Service Panic!")
      as [(c' & new & Hs)|(q & c' & Hs)].
    - exists c', (new0 ++ [EvLog Critical p] ++ new). intros tr.
      rewrite Hs. by rewrite <- !app_assoc.
    - specialize (Hs []). rewrite sendResponse_error in Hs by done. done. }
  assert (Hsend : ∀ c2 m,
            ∃ c' new, ∀ tr,
              match sendResponse cn c2 m tr with
              | Normal r => Normal r
              | Panicked p (ctx, tr) =>
                  sendResponse cn (set_rpcErrorType ErrorTypeServerServicePanic ctx) "Service Panic!"
                    (tr ++ [EvLog Critical ("rpc: (" +:+ ReqServiceMethod (req ctx) +:+ "): " +:+ p)])
              end = Normal (c', tr ++ new)).
  { intros c2 m.
    destruct (sendResponse_frame cn c2 m) as [(c' & new & Hs)|(q & c' & Hs)].
    - exists c', new. intros tr. by rewrite Hs.
    - destruct (Hrecover ("rpc: (" +:+ ReqServiceMethod (req c') +:+ "): " +:+ q) c' [])
        as (c'' & new & Hr).
      exists c'', new. intros tr. rewrite Hs. specialize (Hr tr). by rewrite app_nil_r in Hr. }
  unfold call, call_body.
  destruct (service c) as [svc|].
  - destruct (Call svc (argv c)) as [rv [e|]|p].
    + apply Hsend.
    + apply Hsend.
    + destruct (Hrecover ("rpc: (" +:+ ReqServiceMethod (req c) +:+ "): " +:+ p) c [])
        as (c' & new & Hr).
      exists c', new. intros tr. specialize (Hr tr). by rewrite app_nil_r in Hr.
  - destruct (Hrecover ("rpc: (" +:+ ReqServiceMethod (req c) +:+ "): "
                          +:+ "invalid memory address or nil pointer dereference") c [])
      as (c' & new & Hr).
    exists c', new. intros tr. specialize (Hr tr). by rewrite app_nil_r in Hr.
Qed.

(** A call task changes the counter, the pool, the pending list and the
  trace, and nothing else. *)
Lemma runTask_config i w :
  running (w_server (outcome_state (runTask i w))) = running (w_server w) ∧
  listener (w_server (outcome_state (runTask i w))) = listener (w_server w) ∧
  serviceMap (w_server (outcome_state (runTask i w))) = serviceMap (w_server w) ∧
  routers (w_server (outcome_state (runTask i w))) = routers (w_server w) ∧
  w_conn (outcome_state (runTask i w)) = w_conn w.
Proof.
  unfold runTask. destruct (w_pending w !! i) as [c|]; [|done].
  unfold callTask. cbn.
  destruct (call (w_conn w) c (w_trace w)) as [[c' tr']|p [c' tr']]; done.
Qed.

Lemma runTask_same_calls i t1 t2 new w1 w2 :
  same_calls t1 t2 new w1 w2 →
  ∃ new', same_calls t1 t2 new' (outcome_state (runTask i w1)) (outcome_state (runTask i w2)).
Proof.
  intros (Hc & Hp & Hg & Hpool & Ht1 & Ht2).
  unfold runTask. rewrite Hp. destruct (w_pending w2 !! i) as [c|].
  - unfold callTask. cbn. rewrite Hc.
    destruct (call_frame (w_conn w2) c) as (c' & add & Hcall).
    rewrite !Hcall. cbn. exists (new ++ add).
    unfold same_calls. cbn. rewrite Ht1, Ht2, Hg, Hpool, <- !app_assoc. done.
  - exists new. done.
Qed.

Lemma runTasks_config runs : ∀ w,
  running (w_server (runTasks runs w)) = running (w_server w) ∧
  listener (w_server (runTasks runs w)) = listener (w_server w) ∧
  serviceMap (w_server (runTasks runs w)) = serviceMap (w_server w) ∧
  routers (w_server (runTasks runs w)) = routers (w_server w) ∧
  w_conn (runTasks runs w) = w_conn w.
Proof.
  induction runs as [|i rest IH]; intros w; cbn; [done|].
  destruct (IH (outcome_state (runTask i w))) as (-> & -> & -> & -> & ->).
  apply runTask_config.
Qed.

Lemma runTasks_same_calls runs : ∀ t1 t2 new w1 w2,
  same_calls t1 t2 new w1 w2 →
  ∃ new', same_calls t1 t2 new' (runTasks runs w1) (runTasks runs w2).
Proof.
  induction runs as [|i rest IH]; intros t1 t2 new w1 w2 Hs; cbn; [eauto|].
  destruct (runTask_same_calls i t1 t2 new w1 w2 Hs) as (new' & Hs').
  exact (IH _ _ _ _ _ Hs').
Qed.

Lemma runTasks_balance runs : ∀ w,
  (callGroup (w_server (runTasks runs w)) - Z.of_nat (List.length (w_pending (runTasks runs w)))
   = callGroup (w_server w) - Z.of_nat (List.length (w_pending w)))%Z.
Proof.
  induction runs as [|i rest IH]; intros w; cbn; [done|].
  rewrite IH. destruct (runTask_no_close i w) as (w' & new & Hrun & _).
  rewrite Hrun. cbn. by apply (runTask_balance i).
Qed.

(** The world [close_select] ends in is the one the tasks that finished
  before it returned have made. *)
Lemma close_select_ran runs : ∀ d err pick w,
  ∃ k, (k ≤ List.length runs)%nat ∧ (close_select d err pick runs w).2 = runTasks (take k runs) w.
Proof.
  induction runs as [|i rest IH]; intros d err pick w; cbn [close_select].
  - exists 0. split; [done|]. by repeat case_match.
  - destruct ((callGroup (w_server w) =? 0)%Z && _); [exists 0; split; [lia|done]|].
    destruct (callGroup (w_server w) =? 0)%Z; [exists 0; split; [lia|done]|].
    destruct (match d with Some 0 => true | _ => false end); [exists 0; split; [lia|done]|].
    destruct (IH (Nat.pred <$> d) err pick (outcome_state (runTask i w))) as (k & Hk & Heq).
    exists (S k). split; [cbn; lia|]. by rewrite Heq.
Qed.

Lemma close_select_nil runs : ∀ d err pick w,
  (close_select d err pick runs w).1 = Returned None →
  callGroup (w_server (close_select d err pick runs w).2) = 0%Z.
Proof.
  induction runs as [|i rest IH]; intros d err pick w; cbn [close_select].
  - destruct (Z.eqb_spec (callGroup (w_server w)) 0) as [Hz|Hz]; cbn [andb].
    + by repeat case_match.
    + by repeat case_match.
  - destruct (Z.eqb_spec (callGroup (w_server w)) 0) as [Hz|Hz]; cbn [andb].
    + by repeat case_match.
    + destruct (match d with Some 0 => true | _ => false end); [done|]. apply IH.
Qed.

Lemma close_select_err runs : ∀ d err pick w e,
  (close_select d err pick runs w).1 = Returned (Some e) → e = err ∧ is_Some d.
Proof.
  induction runs as [|i rest IH]; intros d err pick w e; cbn [close_select].
  - destruct d as [[|d]|]; destruct (callGroup (w_server w) =? 0)%Z; destruct pick; cbn;
      intros [= <-] || intros [=]; eauto.
  - destruct d as [[|d]|]; destruct (callGroup (w_server w) =? 0)%Z; destruct pick; cbn;
      try (intros [= <-]; by eauto); try (intros [=]; fail);
      intros H; apply IH in H as [-> Hs]; eauto.
Qed.

Lemma close_select_drains runs : ∀ d err pick w j,
  (j ≤ List.length runs)%nat →
  callGroup (w_server (runTasks (take j runs) w)) = 0%Z →
  (∀ n, d = Some n → (j < n)%nat) →
  (close_select d err pick runs w).1 = Returned None.
Proof.
  induction runs as [|i rest IH]; intros d err pick w j Hj Hz Hd; cbn [close_select].
  - assert (j = 0) as -> by (cbn in Hj; lia). cbn in Hz. rewrite Hz. cbn.
    destruct d as [[|n]|]; [specialize (Hd 0 eq_refl); lia|done..].
  - destruct (Z.eqb_spec (callGroup (w_server w)) 0) as [Hnow|Hnow]; cbn [andb].
    + destruct d as [[|n]|]; [specialize (Hd 0 eq_refl); lia|done..].
    + destruct j as [|j]; [done|]. cbn in Hz, Hj.
      destruct d as [[|n]|]; [specialize (Hd 0 eq_refl); lia| |].
      * cbn. apply (IH _ _ _ _ j); [lia|done|]. intros m [= <-]. specialize (Hd _ eq_refl). lia.
      * cbn. apply (IH _ _ _ _ j); [lia|done|done].
Qed.

Lemma close_select_deadline runs : ∀ n err pick w,
  (∀ j, (j ≤ n)%nat → (j ≤ List.length runs)%nat →
        callGroup (w_server (runTasks (take j runs) w)) ≠ 0%Z) →
  (close_select (Some n) err pick runs w).1 = Returned (Some err).
Proof.
  induction runs as [|i rest IH]; intros n err pick w Hbusy; cbn [close_select].
  - pose proof (Hbusy 0 ltac:(lia) ltac:(cbn; lia)) as H0. cbn in H0.
    destruct (Z.eqb_spec (callGroup (w_server w)) 0); [done|]. cbn. by destruct n.
  - pose proof (Hbusy 0 ltac:(lia) ltac:(cbn; lia)) as H0. cbn in H0.
    destruct (Z.eqb_spec (callGroup (w_server w)) 0); [done|]. cbn [andb].
    destruct n as [|n]; [done|]. cbn. apply IH.
    intros j Hj Hl. apply (Hbusy (S j)); [lia|cbn; lia].
Qed.

(** C8.  On a serving server (listener set, running), [close] closes the
  listener and sets [running] to false; the listener, the service map and
  the routers stay.  It then waits while the calls in flight go on: the
  world it leaves is the one the call tasks that finished in the meantime
  have made (same pending tasks, counter, pool and connection events as
  without the shutdown), with the listener close and one log line before
  their events, so no call is dropped or cut short.  It returns nil only
  with the wait-group counter at zero, and then, when the counter counted
  the pending tasks, none is left; it returns nil when the counter reaches
  zero before the deadline fires, and the context's error, and no other,
  when the deadline fires while the counter is still positive.  In the
  accept loop an error whose message contains "use of closed network
  connection" ends the loop without a log line. *)
Theorem close_waits_for_calls x runs w lis :
  listener (w_server w) = Some lis →
  running (w_server w) = true →
  ∃ res w' k new,
    close x runs w = (res, w') ∧
    running (w_server w') = false ∧
    listener (w_server w') = Some lis ∧
    serviceMap (w_server w') = serviceMap (w_server w) ∧
    routers (w_server w') = routers (w_server w) ∧
    (k ≤ List.length runs)%nat ∧
    w_conn w' = w_conn w ∧
    w_pending w' = w_pending (runTasks (take k runs) w) ∧
    callGroup (w_server w') = callGroup (w_server (runTasks (take k runs) w)) ∧
    contextPool (w_server w') = contextPool (w_server (runTasks (take k runs) w)) ∧
    w_trace (runTasks (take k runs) w) = w_trace w ++ new ∧
    w_trace w' = w_trace w ++ EvListenerClose lis
                           :: EvLog Info ("rpc: stopped listening " +:+ lis) :: new ∧
    (res = Returned None → callGroup (w_server w') = 0%Z) ∧
    (callGroup (w_server w) = Z.of_nat (List.length (w_pending w)) →
     res = Returned None → w_pending w' = []) ∧
    (∀ e, res = Returned (Some e) → e = ctxErr x ∧ is_Some (doneAfter x)) ∧
    (∀ j, (j ≤ List.length runs)%nat →
          callGroup (w_server (runTasks (take j runs) w)) = 0%Z →
          (∀ n, doneAfter x = Some n → (j < n)%nat) →
          res = Returned None) ∧
    (∀ n, doneAfter x = Some n →
          (∀ j, (j ≤ n)%nat → (j ≤ List.length runs)%nat →
                callGroup (w_server (runTasks (take j runs) w)) ≠ 0%Z) →
          res = Returned (Some (ctxErr x))) ∧
    (∀ e script served trx,
        Contains (Error e) "use of closed network connection" = true →
        accept_loop (w_server w) (AcceptFailed e :: script) served trx = (true, served, trx)).
Proof.
  intros Hl Hr.
  set (w0 := mkWorld (set_running false (w_server w)) (w_conn w) (w_pending w)
               ((w_trace w ++ [EvListenerClose lis])
                ++ [EvLog Info ("rpc: stopped listening " +:+ lis)])).
  assert (Hclose : close x runs w = close_select (doneAfter x) (ctxErr x) (pickDone x) runs w0).
  { unfold close. rewrite Hl, Hr. reflexivity. }
  assert (Hsame : same_calls (w_trace w ++ [EvListenerClose lis;
                                             EvLog Info ("rpc: stopped listening " +:+ lis)])
                             (w_trace w) [] w0 w).
  { unfold same_calls, w0. cbn. rewrite !app_nil_r, <- app_assoc. done. }
  assert (Hsteps : ∀ j, ∃ new,
             same_calls (w_trace w ++ [EvListenerClose lis;
                                       EvLog Info ("rpc: stopped listening " +:+ lis)])
                        (w_trace w) new (runTasks (take j runs) w0) (runTasks (take j runs) w)).
  { intros j. by eapply runTasks_same_calls. }
  assert (Hcount : ∀ j, callGroup (w_server (runTasks (take j runs) w0))
                        = callGroup (w_server (runTasks (take j runs) w))).
  { intros j. destruct (Hsteps j) as (new & _ & _ & Hg & _). done. }
  destruct (close_select_ran runs (doneAfter x) (ctxErr x) (pickDone x) w0) as (k & Hk & Hran).
  destruct (Hsteps k) as (new & Hc & Hp & Hg & Hpool & Ht0 & Ht).
  destruct (runTasks_config (take k runs) w0) as (Hrun & Hlis & Hmap & Hrt & Hconn).
  destruct (close_select (doneAfter x) (ctxErr x) (pickDone x) runs w0) as [res w'] eqn:Hsel.
  cbn in Hran. subst w'.
  exists res, (runTasks (take k runs) w0), k, new.
  split; [done|]. split; [by rewrite Hrun|]. split; [by rewrite Hlis|].
  split; [by rewrite Hmap|]. split; [by rewrite Hrt|]. split; [done|].
  split; [by rewrite Hconn|]. split; [done|]. split; [done|]. split; [done|].
  split; [done|]. split; [by rewrite Ht0, <- app_assoc|].
  assert (Hnil : res = Returned None → callGroup (w_server (runTasks (take k runs) w0)) = 0%Z).
  { intros ->.
    pose proof (close_select_nil runs (doneAfter x) (ctxErr x) (pickDone x) w0) as H.
    rewrite Hsel in H. by apply H. }
  split; [exact Hnil|]. split.
  { intros Hbal Hres. specialize (Hnil Hres).
    pose proof (runTasks_balance (take k runs) w0) as Hb. cbn in Hb.
    rewrite Hnil, Hbal in Hb. apply length_zero_iff_nil. lia. }
  split.
  { intros e ->.
    pose proof (close_select_err runs (doneAfter x) (ctxErr x) (pickDone x) w0 e) as H.
    rewrite Hsel in H. by apply H. }
  split.
  { intros j Hj Hz Hd.
    pose proof (close_select_drains runs (doneAfter x) (ctxErr x) (pickDone x) w0 j Hj) as H.
    rewrite Hsel, Hcount in H. by apply H. }
  split.
  { intros n Hn Hbusy.
    pose proof (close_select_deadline runs n (ctxErr x) (pickDone x) w0) as H.
    rewrite <- Hn, Hsel in H. apply H. intros j Hj Hlen. rewrite Hcount. by apply Hbusy. }
  intros e script served trx He. cbn. rewrite He. reflexivity.
Qed.


Lemma close_waits_for_calls_witness :
  ∃ res w' k new,
    close (mkShutdownCtx (Some 5) (Err "context deadline exceeded") false) [0] ex_busy
      = (res, w') ∧
    running (w_server w') = false ∧
    listener (w_server w') = Some "127.0.0.1:8080" ∧
    serviceMap (w_server w') = serviceMap (w_server ex_busy) ∧
    routers (w_server w') = routers (w_server ex_busy) ∧
    (k ≤ List.length [0])%nat ∧
    w_conn w' = w_conn ex_busy ∧
    w_pending w' = w_pending (runTasks (take k [0]) ex_busy) ∧
    callGroup (w_server w') = callGroup (w_server (runTasks (take k [0]) ex_busy)) ∧
    contextPool (w_server w') = contextPool (w_server (runTasks (take k [0]) ex_busy)) ∧
    w_trace (runTasks (take k [0]) ex_busy) = w_trace ex_busy ++ new ∧
    w_trace w' = w_trace ex_busy ++ EvListenerClose "127.0.0.1:8080"
                   :: EvLog Info ("rpc: stopped listening " +:+ "127.0.0.1:8080") :: new ∧
    (res = Returned None → callGroup (w_server w') = 0%Z) ∧
    (callGroup (w_server ex_busy) = Z.of_nat (List.length (w_pending ex_busy)) →
     res = Returned None → w_pending w' = []) ∧
    (∀ e, res = Returned (Some e) →
          e = ctxErr (mkShutdownCtx (Some 5) (Err "context deadline exceeded") false) ∧
          is_Some (doneAfter (mkShutdownCtx (Some 5) (Err "context deadline exceeded") false))) ∧
    (∀ j, (j ≤ List.length [0])%nat →
          callGroup (w_server (runTasks (take j [0]) ex_busy)) = 0%Z →
          (∀ n, doneAfter (mkShutdownCtx (Some 5) (Err "context deadline exceeded") false) = Some n →
                (j < n)%nat) →
          res = Returned None) ∧
    (∀ n, doneAfter (mkShutdownCtx (Some 5) (Err "context deadline exceeded") false) = Some n →
          (∀ j, (j ≤ n)%nat → (j ≤ List.length [0])%nat →
                callGroup (w_server (runTasks (take j [0]) ex_busy)) ≠ 0%Z) →
          res = Returned (Some (ctxErr (mkShutdownCtx (Some 5) (Err "context deadline exceeded") false)))) ∧
    (∀ e script served trx,
        Contains (Error e) "use of closed network connection" = true →
        accept_loop (w_server ex_busy) (AcceptFailed e :: script) served trx = (true, served, trx)).
Proof.
  apply (close_waits_for_calls
           (mkShutdownCtx (Some 5) (Err "context deadline exceeded") false) [0] ex_busy
           "127.0.0.1:8080"); reflexivity.
Defined.

(** The ends of the wait, run on the sample server with one call in
  flight: the call finishes before the deadline; the deadline has passed
  when [close] is entered; nothing finishes and there is no deadline. *)
Example close_drained :
  (close (mkShutdownCtx (Some 5) (Err "context deadline exceeded") false) [0] ex_busy).1
  = Returned None.
Proof. vm_compute. reflexivity. Qed.

Example close_deadline :
  (close (mkShutdownCtx (Some 0) (Err "context deadline exceeded") false) [0] ex_busy).1
  = Returned (Some (Err "context deadline exceeded")).
Proof. vm_compute. reflexivity. Qed.

Example close_stuck :
  (close (mkShutdownCtx None (Err "context deadline exceeded") false) [] ex_busy).1 = Waiting.
Proof. vm_compute. reflexivity. Qed.

(** X22.  Shutting down twice: after a [close] that returned, with nil
  or with the deadline's error, a second [close] returns nil at once,
  whatever its deadline and whatever is still in flight; it leaves the
  server, the pending tasks and the connection as they were and only
  closes the listener again when there is one. *)
Theorem close_twice x1 runs1 x2 runs2 w r1 w1 :
  close x1 runs1 w = (Returned r1, w1) →
  ∃ w2,
    close x2 runs2 w1 = (Returned None, w2) ∧
    w_server w2 = w_server w1 ∧
    w_pending w2 = w_pending w1 ∧
    w_conn w2 = w_conn w1 ∧
    w_trace w2 = w_trace w1 ++ match listener (w_server w) with
                               | Some lis => [EvListenerClose lis]
                               | None => []
                               end.
Proof.
  unfold close at 1. destruct (listener (w_server w)) as [lis|] eqn:Hl.
  - destruct (running (w_server w)) eqn:Hr; cbn [negb].
    + intros Hsel.
      destruct (close_select_ran runs1 (doneAfter x1) (ctxErr x1) (pickDone x1)
                  (mkWorld (set_running false (w_server w)) (w_conn w) (w_pending w)
                     ((w_trace w ++ [EvListenerClose lis])
                      ++ [EvLog Info ("rpc: stopped listening " +:+ lis)])))
        as (k & _ & Hran).
      rewrite Hsel in Hran. cbn in Hran.
      destruct (runTasks_config (take k runs1)
                  (mkWorld (set_running false (w_server w)) (w_conn w) (w_pending w)
                     ((w_trace w ++ [EvListenerClose lis])
                      ++ [EvLog Info ("rpc: stopped listening " +:+ lis)])))
        as (Hrun & Hlis & _).
      rewrite <- Hran in Hrun, Hlis. cbn in Hrun, Hlis.
      unfold close. rewrite Hlis, Hl, Hrun. cbn. eexists. done.
    + intros [= <- <-]. unfold close. cbn. rewrite Hl, Hr. cbn. eexists. done.
  - intros [= <- <-]. unfold close. rewrite Hl. exists w. by rewrite app_nil_r.
Qed.

Lemma close_twice_witness :
  ∃ w2,
    close (mkShutdownCtx None EOF false) []
          (close (mkShutdownCtx (Some 5) (Err "context deadline exceeded") false) [0] ex_busy).2
      = (Returned None, w2) ∧
    w_server w2
      = w_server (close (mkShutdownCtx (Some 5) (Err "context deadline exceeded") false) [0] ex_busy).2 ∧
    w_pending w2
      = w_pending (close (mkShutdownCtx (Some 5) (Err "context deadline exceeded") false) [0] ex_busy).2 ∧
    w_conn w2
      = w_conn (close (mkShutdownCtx (Some 5) (Err "context deadline exceeded") false) [0] ex_busy).2 ∧
    w_trace w2
      = w_trace (close (mkShutdownCtx (Some 5) (Err "context deadline exceeded") false) [0] ex_busy).2
        ++ match listener (w_server ex_busy) with
           | Some lis => [EvListenerClose lis]
           | None => []
           end.
Proof.
  apply (close_twice (mkShutdownCtx (Some 5) (Err "context deadline exceeded") false) [0]
                     (mkShutdownCtx None EOF false) [] ex_busy None).
  vm_compute. reflexivity.
Defined.

(** *** After a panic *)





(** *** Registration *)

Lemma register_step_containers rcvr p st svc :
  PluginContainer (rs_server (register_step rcvr p st svc)) = PluginContainer (rs_server st).
Proof. reflexivity. Qed.

Lemma register_step_refused rcvr p st svc e :
  (∀ md, doRegister (PluginContainer (rs_server st)) (GetPath svc) rcvr md = Some e) ∨
  (∀ md, doRegister p (GetPath svc) rcvr md = Some e) →
  NewError (Error e) ∈ rs_errs (register_step rcvr p st svc).
Proof.
  intros H. unfold register_step. cbn.
  destruct H as [H|H]; rewrite H.
  - destruct (doRegister p _ _ _).
    + apply elem_of_app. left. apply elem_of_app. right. by left.
    + apply elem_of_app. right. by left.
  - apply elem_of_app. right. by left.
Qed.

Lemma register_loop_containers rcvr p services : ∀ st,
  PluginContainer (rs_server (register_loop rcvr p services st)) = PluginContainer (rs_server st).
Proof.
  induction services as [|svc rest IH]; intros st; cbn; [done|]. by rewrite IH.
Qed.

Lemma register_loop_refused rcvr p services : ∀ st svc e,
  svc ∈ services →
  (∀ md, doRegister (PluginContainer (rs_server st)) (GetPath svc) rcvr md = Some e) ∨
  (∀ md, doRegister p (GetPath svc) rcvr md = Some e) →
  NewError (Error e) ∈ rs_errs (register_loop rcvr p services st).
Proof.
  induction services as [|svc0 rest IH]; intros st svc e Hin Href; cbn.
  - by apply elem_of_nil in Hin.
  - apply elem_of_cons in Hin as [->|Hin].
    + apply register_loop_errs_mono. by apply register_step_refused.
    + apply (IH _ svc e Hin). by rewrite register_step_containers.
Qed.

(** X18.  When the server-wide container or the scoped container refuses
  the path of one of the services the builder returned, the registration
  is fatal and the refusal is among the errors reported. *)
Theorem register_hook_refusal_fatal segs rcvr p md s tr services svc e :
  NewServices (ServiceBuilder s) rcvr segs = (services, None) →
  svc ∈ services →
  (∀ md', doRegister (PluginContainer s) (GetPath svc) rcvr md' = Some e) ∨
  (∀ md', doRegister p (GetPath svc) rcvr md' = Some e) →
  ∃ errs s' tr',
    register segs rcvr p md s tr = Fatal errs s' tr' ∧ NewError (Error e) ∈ errs.
Proof.
  intros Hnew Hin Href. unfold register. rewrite Hnew.
  destruct (decide (List.length services = 0)) as [Hz|_].
  { destruct services; [by apply elem_of_nil in Hin|done]. }
  pose proof (register_loop_refused rcvr p services (mkRegState s md [] tr) svc e Hin Href) as He.
  destruct (decide (0 < List.length (rs_errs _))) as [_|Hz].
  - eexists _, _, _. split; [reflexivity|done].
  - destruct (rs_errs _); [by apply elem_of_nil in He|]. cbn in Hz. lia.
Qed.

Lemma register_hook_refusal_fatal_witness :
  ∃ errs s' tr',
    register ["Arith"] ex_rcvr ex_refusing ["m"] ex_server [] = Fatal errs s' tr' ∧
    NewError (Error (Err "registration closed")) ∈ errs.
Proof.
  apply (register_hook_refusal_fatal ["Arith"] ex_rcvr ex_refusing ["m"] ex_server []
           [ex_mul; ex_boom] ex_boom (Err "registration closed")).
  - reflexivity.
  - right. left.
  - right. intros md'. reflexivity.
Defined.

Lemma register_loop_other rcvr p services : ∀ st path,
  path ∉ (GetPath <$> services) →
  serviceMap (rs_server (register_loop rcvr p services st)) !! path
    = serviceMap (rs_server st) !! path.
Proof.
  induction services as [|svc rest IH]; intros st path Hnot; cbn; [done|].
  rewrite fmap_cons in Hnot. apply not_elem_of_cons in Hnot as [Hne Hnot].
  rewrite (IH _ _ Hnot).
  destruct (register_step_server rcvr p st svc) as (_ & -> & _).
  by rewrite lookup_insert_ne.
Qed.

Lemma register_loop_lookup rcvr p services : ∀ st svc,
  NoDup (GetPath <$> services) → svc ∈ services →
  serviceMap (rs_server (register_loop rcvr p services st)) !! GetPath svc
    = Some (SetPluginContainer p svc).
Proof.
  induction services as [|svc0 rest IH]; intros st svc Hnd Hin; cbn.
  - by apply elem_of_nil in Hin.
  - rewrite fmap_cons in Hnd. apply NoDup_cons in Hnd as [Hfresh Hnd].
    destruct (decide (GetPath svc = GetPath svc0)) as [Heq|Hne].
    + apply elem_of_cons in Hin as [->|Hin].
      * rewrite register_loop_other by done.
        destruct (register_step_server rcvr p st svc0) as (_ & -> & _).
        by rewrite lookup_insert_eq.
      * exfalso. apply Hfresh. rewrite <- Heq. apply list_elem_of_fmap. eauto.
    + apply elem_of_cons in Hin as [->|Hin]; [done|]. by apply IH.
Qed.

(** X19.  After a successful registration, looking up the path of each
  service the builder returned yields that service with the scoped
  container attached, and every other path maps to what it mapped to
  before. *)
Theorem register_lookup segs rcvr p md s tr s' tr' :
  register segs rcvr p md s tr = Registered s' tr' →
  (∀ svc, svc ∈ (NewServices (ServiceBuilder s) rcvr segs).1 →
          serviceMap s' !! GetPath svc = Some (SetPluginContainer p svc)) ∧
  (∀ path, path ∉ (GetPath <$> (NewServices (ServiceBuilder s) rcvr segs).1) →
           serviceMap s' !! path = serviceMap s !! path).
Proof.
  intros Hreg.
  destruct (register_Registered _ _ _ _ _ _ _ _ Hreg) as (services & Hnew & Hne & Hclean & ->).
  rewrite Hnew. cbn [fst].
  destruct (register_loop_clean _ _ _ _ Hclean) as (_ & Hndp & _).
  split.
  - intros svc Hin. cbn. by apply register_loop_lookup.
  - intros path Hnot. cbn. by rewrite register_loop_other.
Qed.

Lemma register_lookup_witness :
  ∃ s' tr',
    register ["Arith"] ex_rcvr emptyContainer ["m"] ex_server [] = Registered s' tr' ∧
    (∀ svc, svc ∈ [ex_mul; ex_boom] →
            serviceMap s' !! GetPath svc = Some (SetPluginContainer emptyContainer svc)) ∧
    (∀ path, path ∉ (GetPath <$> [ex_mul; ex_boom]) →
             serviceMap s' !! path = serviceMap ex_server !! path).
Proof.
  destruct (register ["Arith"] ex_rcvr emptyContainer ["m"] ex_server [])
    as [s' tr'|errs s' tr'] eqn:E.
  - exists s', tr'. split; [reflexivity|].
    exact (register_lookup ["Arith"] ex_rcvr emptyContainer ["m"] ex_server [] s' tr' E).
  - exfalso. vm_compute in E. discriminate E.
Defined.

(** X20.  A name that contains a byte outside [[a-zA-Z0-9_.-]] (a slash,
  for instance) makes [NamedRegister], at server and at group level, fatal
  with the invalid-path error; the server and the trace come back as they
  were: nothing is registered and no register hook has run. *)
Theorem invalid_name_is_fatal a c b rcvr md s tr group :
  nameChar c = false →
  NamedRegister (a +:+ String c b) rcvr md s tr
    = Fatal [Err ("rpc: " +:+ Error (ErrInvalidPath (a +:+ String c b)))] s tr ∧
  Group_NamedRegister group (a +:+ String c b) rcvr md s tr
    = Fatal [Err ("rpc: " +:+ Error (ErrInvalidPath (a +:+ String c b)))] s tr.
Proof.
  intros Hc.
  assert (Hm : MatchString (a +:+ String c b) = false).
  { clear -Hc. induction a as [|d a IH].
    - change ("" +:+ String c b) with (String c b). cbn [MatchString]. by rewrite Hc.
    - change (String d a +:+ String c b) with (String d (a +:+ String c b)).
      cbn [MatchString]. by rewrite IH, andb_false_r. }
  unfold NamedRegister, Group_NamedRegister, CheckSname. by rewrite Hm.
Qed.

Lemma invalid_name_is_fatal_witness :
  NamedRegister ("v1" +:+ String "/" "Arith") ex_rcvr [] ex_server []
    = Fatal [Err ("rpc: " +:+ Error (ErrInvalidPath ("v1" +:+ String "/" "Arith")))] ex_server [] ∧
  Group_NamedRegister (mkGroup ["api"] None) ("v1" +:+ String "/" "Arith") ex_rcvr [] ex_server []
    = Fatal [Err ("rpc: " +:+ Error (ErrInvalidPath ("v1" +:+ String "/" "Arith")))] ex_server [].
Proof.
  apply (invalid_name_is_fatal "v1" "/" "Arith" ex_rcvr [] ex_server [] (mkGroup ["api"] None)).
  reflexivity.
Defined.

Lemma register_keeps_ok segs rcvr p md s tr s' tr' :
  registry_ok s →
  register segs rcvr p md s tr = Registered s' tr' →
  registry_ok s' ∧ StronglySorted string_le (routers s').
Proof.
  intros [Hnd Hkeys] Hreg.
  destruct (register_Registered _ _ _ _ _ _ _ _ Hreg) as (services & Hnew & Hne & Hclean & ->).
  destruct (register_loop_clean _ _ _ _ Hclean) as (_ & Hndp & Hfree). cbn in Hfree.
  split; [split|].
  - cbn. unfold sort_Strings. rewrite merge_sort_Permutation.
    rewrite register_loop_routers. cbn. apply NoDup_app. split; [done|]. split; [|done].
    intros path Hin Hin'. apply Hkeys in Hin as [old Hold].
    apply list_elem_of_fmap in Hin' as (svc & -> & Hsvc).
    rewrite (Hfree svc Hsvc) in Hold. done.
  - intros path. cbn [routers serviceMap set_routers]. unfold sort_Strings.
    rewrite merge_sort_Permutation, register_loop_routers, register_loop_map. cbn.
    rewrite elem_of_app. by rewrite Hkeys.
  - cbn. apply StronglySorted_merge_sort; apply _.
Qed.

(** X21.  Registrations chain: starting from a well-formed registry with
  sorted routers, every sequence of registrations that succeeds ends in a
  well-formed registry with sorted routers. *)
Theorem register_all_keeps_registry rs : ∀ s tr s' tr',
  registry_ok s → StronglySorted string_le (routers s) →
  register_all rs s tr = Registered s' tr' →
  registry_ok s' ∧ StronglySorted string_le (routers s').
Proof.
  induction rs as [|r rest IH]; intros s tr s' tr' Hok Hsorted; cbn.
  - by intros [= <- <-].
  - destruct (register _ _ _ _ s tr) as [s1 tr1|] eqn:Hreg; [|done].
    destruct (register_keeps_ok _ _ _ _ _ _ _ _ Hok Hreg) as [Hok1 Hs1].
    by apply IH.
Qed.

Lemma register_all_keeps_registry_witness :
  ∃ s' tr',
    register_all [mkRegistration ["Arith"] ex_rcvr emptyContainer ["m"]] (init ex_server) []
      = Registered s' tr' ∧
    registry_ok s' ∧ StronglySorted string_le (routers s').
Proof.
  destruct (register_all [mkRegistration ["Arith"] ex_rcvr emptyContainer ["m"]]
                         (init ex_server) []) as [s' tr'|errs s' tr'] eqn:E.
  - exists s', tr'. split; [reflexivity|].
    apply (register_all_keeps_registry
             [mkRegistration ["Arith"] ex_rcvr emptyContainer ["m"]] (init ex_server) [] s' tr').
    + apply registry_ok_init.
    + constructor.
    + exact E.
  - exfalso. vm_compute in E. discriminate E.
Defined.

(** *** Shutdown and accept *)

Lemma accept_loop_served s script : ∀ served tr,
  ∃ new,
    (accept_loop s script served tr).1.2 = served ++ new ∧
    ∀ c, c ∈ new → c ∈ accepted script ∧ doPostConnAccept (PluginContainer s) c = None.
Proof.
  induction script as [|[c|e] rest IH]; intros served tr; cbn [accept_loop accepted].
  - exists []. split; [by rewrite app_nil_r|]. intros c Hc. by apply elem_of_nil in Hc.
  - destruct (doPostConnAccept (PluginContainer s) c) eqn:Hhook.
    + destruct (IH served (tr ++ [EvLog Debug ("rpc: PostConnAccept: " +:+ Error e)]))
        as (new & Heq & Hnew).
      exists new. split; [done|]. intros c' Hc'. destruct (Hnew c' Hc').
      split; [by right|done].
    + destruct (IH (served ++ [c]) tr) as (new & Heq & Hnew).
      exists (c :: new). split; [by rewrite Heq, <- app_assoc|].
      intros c' Hc'. apply elem_of_cons in Hc' as [->|Hc'].
      * split; [by left|done].
      * destruct (Hnew c' Hc'). split; [by right|done].
  - exists []. cbn. split; [by rewrite app_nil_r|]. intros c Hc. by apply elem_of_nil in Hc.
Qed.

(** X23.  [serveListener] marks the server running with the listener it
  was given, and serves only connections that [Accept] returned and that
  the post-accept hook let through. *)
Theorem serveListener_serves_accepted lis script s tr :
  running (serveListener lis script s tr).1 = true ∧
  listener (serveListener lis script s tr).1 = Some lis ∧
  ∀ c, c ∈ (serveListener lis script s tr).2.1.2 →
       c ∈ accepted script ∧ doPostConnAccept (PluginContainer s) c = None.
Proof.
  unfold serveListener. cbn [fst snd]. split; [done|]. split; [done|].
  intros c Hc.
  destruct (accept_loop_served (set_running true (set_listener (Some lis) s)) script []
              (tr ++ [EvLog Info ("rpc: listening and serving on " +:+ lis)]))
    as (new & Heq & Hnew).
  rewrite Heq in Hc. cbn in Hc. by apply Hnew.
Qed.

End server.

(** ** Facts about package common *)
Module common_facts.
Import common.

Ltac by_bytes d := destruct d as [[] [] [] [] [] [] [] []]; vm_compute; intuition congruence.

Lemma lowerByte_not_upper d : isUpper (lowerByte d) = false.
Proof. by_bytes d. Qed.

Lemma lowerByte_fix d : isUpper d = false → lowerByte d = d.
Proof. unfold lowerByte. by intros ->. Qed.

Lemma lowerByte_name d : nameChar d = true → nameChar (lowerByte d) = true.
Proof. by_bytes d. Qed.

Lemma upper_restored d :
  isUpper d = true →
  isLower (lowerByte d) = true ∧ isUpper (lowerByte d) = false ∧
  ascii_of_N (N_of_ascii (lowerByte d) - 32) = d ∧
  Ascii.eqb d underscore = false.
Proof. by_bytes d. Qed.

Lemma length_ToLower s : String.length (ToLower s) = String.length s.
Proof. induction s as [|d s IH]; cbn; [done|]. by rewrite IH. Qed.

Lemma snake_loop_length s : ∀ i j,
  (String.length s ≤ String.length (snake_loop i j s) ≤ 2 * String.length s)%nat.
Proof.
  induction s as [|d s IH]; intros i j; cbn [snake_loop]; [cbn; lia|].
  destruct ((0 <? i)%nat && isUpper d && j);
    cbn [String.length]; specialize (IH (S i) (if negb (Ascii.eqb d underscore) then true else j)); lia.
Qed.

(** X3.  On ASCII input [SnakeString] returns at least as many bytes as it
  was given and at most twice as many: the buffer it allocates with
  capacity [len(s)*2] is never outgrown. *)
Theorem SnakeString_length s :
  isASCII s = true →
  (String.length s ≤ String.length (SnakeString s) ≤ 2 * String.length s)%nat.
Proof. intros _. unfold SnakeString. rewrite length_ToLower. apply snake_loop_length. Qed.

Lemma SnakeString_length_witness :
  (String.length "XxYy" ≤ String.length (SnakeString "XxYy") ≤ 2 * String.length "XxYy")%nat.
Proof. apply (SnakeString_length "XxYy"). reflexivity. Defined.

Lemma ToLower_no_upper s : all_chars (fun d => negb (isUpper d)) (ToLower s) = true.
Proof.
  induction s as [|d s IH]; cbn; [done|]. by rewrite lowerByte_not_upper, IH.
Qed.

Lemma ToLower_fix s : all_chars (fun d => negb (isUpper d)) s = true → ToLower s = s.
Proof.
  induction s as [|d s IH]; cbn; [done|].
  intros [Hd Hs]%andb_prop. apply negb_true_iff in Hd.
  by rewrite (lowerByte_fix d Hd), (IH Hs).
Qed.

Lemma snake_loop_fix s : ∀ i j,
  all_chars (fun d => negb (isUpper d)) s = true → snake_loop i j s = s.
Proof.
  induction s as [|d s IH]; intros i j; cbn [snake_loop all_chars]; [done|].
  intros [Hd Hs]%andb_prop. apply negb_true_iff in Hd.
  rewrite Hd, andb_false_r. cbn. by rewrite (IH _ _ Hs).
Qed.

(** X4.  On ASCII input the result of [SnakeString] contains no upper-case
  letter. *)
Theorem SnakeString_no_upper s :
  isASCII s = true → all_chars (fun d => negb (isUpper d)) (SnakeString s) = true.
Proof. intros _. apply ToLower_no_upper. Qed.

Lemma SnakeString_no_upper_witness :
  all_chars (fun d => negb (isUpper d)) (SnakeString "GetHTTPResponse") = true.
Proof. apply (SnakeString_no_upper "GetHTTPResponse"). reflexivity. Defined.

(** X5.  On ASCII input [SnakeString] is idempotent: a snake string is
  left as it is. *)
Theorem SnakeString_idempotent s :
  isASCII s = true → SnakeString (SnakeString s) = SnakeString s.
Proof.
  intros _. unfold SnakeString at 1.
  rewrite snake_loop_fix by apply ToLower_no_upper.
  apply ToLower_fix, ToLower_no_upper.
Qed.

Lemma SnakeString_idempotent_witness :
  SnakeString (SnakeString "GetHTTPResponse") = SnakeString "GetHTTPResponse".
Proof. apply (SnakeString_idempotent "GetHTTPResponse"). reflexivity. Defined.

Lemma MatchString_ToLower s : MatchString s = true → MatchString (ToLower s) = true.
Proof.
  induction s as [|d s IH]; cbn; [done|].
  intros [Hd Hs]%andb_prop. by rewrite (lowerByte_name d Hd), (IH Hs).
Qed.

Lemma MatchString_snake_loop s : ∀ i j,
  MatchString s = true → MatchString (snake_loop i j s) = true.
Proof.
  induction s as [|d s IH]; intros i j; cbn [snake_loop MatchString]; [done|].
  intros [Hd Hs]%andb_prop.
  destruct ((0 <? i)%nat && isUpper d && j); cbn [MatchString];
    rewrite Hd, (IH _ _ Hs); reflexivity.
Qed.

Lemma CheckSname_None s : CheckSname s = None ↔ MatchString s = true.
Proof. unfold CheckSname. destruct (MatchString s); cbn; split; done. Qed.

(** X6.  A name that [CheckSname] accepts is still accepted after
  [SnakeString]: the underscores it inserts and the lower-case letters it
  produces stay in the class. *)
Theorem CheckSname_SnakeString s :
  CheckSname s = None → CheckSname (SnakeString s) = None.
Proof.
  rewrite !CheckSname_None. intros H.
  by apply MatchString_ToLower, MatchString_snake_loop.
Qed.

Lemma CheckSname_SnakeString_witness : CheckSname (SnakeString "User.Service-V2") = None.
Proof. apply (CheckSname_SnakeString "User.Service-V2"). reflexivity. Defined.

Lemma MatchString_app a b :
  MatchString (a +:+ b) = MatchString a && MatchString b.
Proof.
  induction a as [|d a IH]; [done|].
  change (String d a +:+ b) with (String d (a +:+ b)). cbn [MatchString].
  by rewrite IH, andb_assoc.
Qed.

(** X1.  [CheckSname] accepts the empty name, and it accepts a
  concatenation exactly when it accepts both parts. *)
Theorem CheckSname_app a b :
  CheckSname "" = None ∧
  (CheckSname (a +:+ b) = None ↔ CheckSname a = None ∧ CheckSname b = None).
Proof.
  split; [reflexivity|].
  rewrite !CheckSname_None, MatchString_app. apply andb_true_iff.
Qed.

(** X2.  A name with a byte outside [[a-zA-Z0-9_.-]] anywhere in it is
  rejected, with the invalid-path error built from the whole name. *)
Theorem CheckSname_rejects a c b :
  nameChar c = false →
  CheckSname (a +:+ String c b) = Some (ErrInvalidPath (a +:+ String c b)).
Proof.
  intros Hc. unfold CheckSname. rewrite MatchString_app. cbn [MatchString].
  rewrite Hc. cbn. by rewrite andb_false_r.
Qed.

Lemma CheckSname_rejects_witness :
  CheckSname ("v1" +:+ String "/" "Arith") = Some (ErrInvalidPath ("v1" +:+ String "/" "Arith")).
Proof. apply (CheckSname_rejects "v1" "/" "Arith"). reflexivity. Defined.

Lemma camel_loop_length s : ∀ j k,
  (String.length (camel_loop j k s) ≤ String.length s)%nat.
Proof.
  induction s as [|d s IH]; intros j k; cbn [camel_loop]; [done|].
  destruct (isLower d && (j || negb (if negb k && isUpper d then true else k)));
    match goal with
    | |- context [if ?c then camel_loop _ _ _ else _] => destruct c
    end; cbn [String.length];
    match goal with
    | |- context [camel_loop ?j' ?k' s] => specialize (IH j' k'); lia
    end.
Qed.

(** X7.  [CamelString] never returns more bytes than it was given: it only
  rewrites bytes or drops underscores. *)
Theorem CamelString_length s :
  (String.length (CamelString s) ≤ String.length s)%nat.
Proof. apply camel_loop_length. Qed.

Lemma alnum_plain d :
  isAlnum d = true → isUpper d = false →
  lowerByte d = d ∧ Ascii.eqb d underscore = false.
Proof. by_bytes d. Qed.

Lemma camel_after_snake r : ∀ i,
  (0 < i)%nat → all_chars isAlnum r = true →
  camel_loop false true (ToLower (snake_loop i true r)) = r.
Proof.
  induction r as [|d r IH]; intros i Hi; cbn [snake_loop all_chars ToLower]; [done|].
  intros [Hd Hr]%andb_prop.
  assert (Hpos : (0 <? i)%nat = true) by (apply Nat.ltb_lt; lia).
  rewrite Hpos.
  assert (Hj : (if negb (Ascii.eqb d underscore) then true else true) = true)
    by (by destruct (negb _)).
  rewrite Hj.
  destruct (isUpper d) eqn:Hup; cbn [andb ToLower].
  - destruct (upper_restored d Hup) as (Hlow & Hnup & Hback & Hus).
    change (lowerByte underscore) with underscore.
    cbn [camel_loop]. change (isUpper underscore) with false.
    change (isLower underscore) with false. cbn [negb andb orb].
    change (Ascii.eqb underscore underscore) with true.
    rewrite Hlow. cbn [andb orb negb]. rewrite Hback, Hus. cbn [andb].
    f_equal. apply IH; [lia|done].
  - destruct (alnum_plain d Hd Hup) as (Hfix & Hus).
    rewrite Hfix. cbn [camel_loop]. rewrite Hup. cbn [negb andb orb].
    rewrite andb_false_r. rewrite Hus. cbn [andb].
    f_equal. apply IH; [lia|done].
Qed.

(** X8.  For an exported identifier made of ASCII letters and digits (an
  upper-case letter first), [CamelString] undoes [SnakeString]. *)
Theorem CamelString_SnakeString s :
  exported s = true → CamelString (SnakeString s) = s.
Proof.
  destruct s as [|c r]; [done|]. cbn [exported].
  intros [Hc Hr]%andb_prop.
  destruct (upper_restored c Hc) as (Hlow & Hnup & Hback & Hus).
  unfold CamelString, SnakeString. cbn [snake_loop ToLower].
  rewrite Hus. cbn [Nat.ltb Nat.leb andb negb].
  cbn [ToLower camel_loop]. rewrite Hnup, Hlow. cbn [andb orb negb].
  rewrite Hback, Hus. cbn [andb].
  f_equal. apply camel_after_snake; [lia|done].
Qed.

Lemma CamelString_SnakeString_witness : CamelString (SnakeString "GetHTTP2Response") = "GetHTTP2Response".
Proof. apply (CamelString_SnakeString "GetHTTP2Response"). reflexivity. Defined.

End common_facts.
